(** * unusedeps: a shallow embedding of the dependency scanner and remover

    The development follows the program's source function by function:
    [getFiles], [dependencyUsed], [scriptUsed], [getGlobal], [remove] and
    [main].  Node's library calls ([fs], [path],
    [child_process], [Date.now]) are the boundary of the model: the file
    system is a record of total functions answering each call (or failing,
    for a call that throws), the clock and the outcomes of the spawned
    commands are inputs of the event loop. *)

From Stdlib Require Import ZArith Ascii.
From stdpp Require Import base gmap sets list strings pretty.

#[local] Set Warnings "-clear-no-such-hyp".

(** ** JavaScript strings

    A JavaScript string is modelled as a Rocq [string]; every function the
    program applies to strings ([includes], [startsWith], the [/\d/g] match
    and the comparison with ['all']) only looks at ASCII characters, on which
    both representations agree. *)

Module Js.

(** [s.startsWith(p)]. *)
Definition startsWith (s p : string) : bool := String.prefix p s.

(** [s.includes(sub)]: [sub] occurs at some position of [s]. *)
Fixpoint includes (s sub : string) : bool :=
  String.prefix sub s ||
  match s with
  | EmptyString => false
  | String _ s' => includes s' sub
  end.

(** [arr.includes(x)] on an array of strings. *)
Definition mem (x : string) (arr : list string) : bool :=
  bool_decide (x ∈ arr).

(** ASCII part of [toLowerCase]; no other character lower-cases to a
    letter of ['all']. *)
Definition lower_ascii (c : ascii) : ascii :=
  let n := nat_of_ascii c in
  if (65 <=? n)%nat && (n <=? 90)%nat then ascii_of_nat (n + 32) else c.

Fixpoint toLowerCase (s : string) : string :=
  match s with
  | EmptyString => EmptyString
  | String c s' => String (lower_ascii c) (toLowerCase s')
  end.

(** The line feed of the template literals. *)
Definition LF : string := String (ascii_of_nat 10) EmptyString.

End Js.

(** ** Node's [path] module, on the arguments the program gives it

    [path.join(dir, name)] is applied to a resolved directory path and a
    directory entry; [path.extname(name)] to a directory entry (a name
    without separator). *)

Module Path.

Fixpoint ends_with_sep (d : string) : bool :=
  match d with
  | EmptyString => false
  | String c EmptyString => bool_decide (c = "/"%char)
  | String _ d' => ends_with_sep d'
  end.

Definition join (d name : string) : string :=
  if ends_with_sep d then d +:+ name else d +:+ "/" +:+ name.

(** The suffix of [s] that starts at its last dot. *)
Fixpoint from_last_dot (s : string) : option string :=
  match s with
  | EmptyString => None
  | String c s' =>
      match from_last_dot s' with
      | Some e => Some e
      | None => if bool_decide (c = "."%char) then Some s else None
      end
  end.

(** [extname]: from the last dot to the end, empty when there is no dot,
    when the only dot is the first character, and for [".."]. *)
Definition extname (name : string) : string :=
  match name with
  | EmptyString => ""
  | String _ rest =>
      match from_last_dot rest with
      | Some e => if bool_decide (name = "..") then "" else e
      | None => ""
      end
  end.

End Path.

(** ** The file system seen through Node's [fs] *)

(** What [lstatSync] tells the program about an entry: a link, a directory,
    or anything else (a regular file, a socket, ...). *)
Inductive Stats := SymbolicLink | Directory | OtherEntry.

Definition isSymbolicLink (st : Stats) : bool :=
  match st with SymbolicLink => true | _ => false end.

Definition isDirectory (st : Stats) : bool :=
  match st with Directory => true | _ => false end.

(** Each field answers one call; [None] is the call throwing. *)
Record FileSystem := {
  realpathSync : string → option string;
  readdirSync : string → option (list string);
  lstatSync : string → option Stats;
  readFileSync : string → option string;
  cwd : string
}.

(** ** [getFiles] *)

Definition extensions : list string :=
  [".js"; ".ts"; ".jsx"; ".tsx"; ".mjs"; ".cjs"].

(** The test of line 51 on a sub-directory path. *)
Definition skipped (filePath : string) : bool :=
  Js.includes filePath "node_modules" || Js.includes filePath ".vscode"
  || Js.includes filePath ".git".

Section GetFiles.
Variable fs : FileSystem.

(** The [for (const file of list)] loop over [entries], the source's
    [list].  [recur] is the recursive call
    [getFiles(filePath, visited)]; the set [visited] is one shared object,
    so the set it leaves behind is the one the loop goes on with. *)
Fixpoint scan (recur : string → gset string → option (list string * gset string))
    (realPath : string) (entries : list string)
    (results : list string) (visited : gset string)
    : option (list string * gset string) :=
  match entries with
  | [] => Some (results, visited)
  | file :: rest =>
      let filePath := Path.join realPath file in
      match lstatSync fs filePath with
      | None => scan recur realPath rest results visited
      | Some stat =>
          if isSymbolicLink stat then scan recur realPath rest results visited
          else if isDirectory stat then
            if skipped filePath then scan recur realPath rest results visited
            else
              match recur filePath visited with
              | None => None
              | Some (sub, visited') =>
                  scan recur realPath rest (results ++ sub) visited'
              end
          else if Js.mem (Path.extname file) extensions then
            scan recur realPath rest (results ++ [filePath]) visited
          else scan recur realPath rest results visited
      end
  end.

(** [getFiles(dir, visited)] returns the files and the set [visited] as the
    call leaves it.  The first argument bounds the depth of the recursion;
    [None] means the bound was reached, never a JavaScript outcome.  An
    exception of [realpathSync] or [readdirSync] is caught by the function's
    own [try]: it returns the still empty [results] (the [console.error] of
    the handler writes to stderr and is not part of the value). *)
Fixpoint getFiles (depth : nat) (dir : string) (visited : gset string)
    : option (list string * gset string) :=
  match depth with
  | O => None
  | S depth' =>
      match realpathSync fs dir with
      | None => Some ([], visited)
      | Some realPath =>
          if bool_decide (realPath = "") || bool_decide (realPath ∈ visited)
          then Some ([], visited)
          else
            let visited1 := visited ∪ {[realPath]} in
            match readdirSync fs realPath with
            | None => Some ([], visited1)
            | Some entries => scan (getFiles depth') realPath entries [] visited1
            end
      end
  end.

End GetFiles.

(** ** [dependencyUsed] and [scriptUsed] *)

(** What a call gives: a value, an exception that leaves the function, or
    the recursion bound of [getFiles] reached (never a JavaScript outcome). *)
Inductive outcome (A : Type) : Type :=
| Returns (a : A)
| Throws
| OutOfDepth.
Arguments Returns {A} a.
Arguments Throws {A}.
Arguments OutOfDepth {A}.

#[global] Instance outcome_bind : MBind outcome := λ A B f m,
  match m with
  | Returns a => f a
  | Throws => Throws
  | OutOfDepth => OutOfDepth
  end.

(** [arr.some(callback)] with a callback that may throw: the entries are
    tried in order and the first [true] ends the loop. *)
Fixpoint some {A} (callback : A → outcome bool) (arr : list A) : outcome bool :=
  match arr with
  | [] => Returns false
  | x :: arr' =>
      callback x ≫= λ b : bool,
        if b then Returns true else some callback arr'
  end.

Definition exclusions : list string := ["typescript"].

(** The double quote of the template literals. *)
Definition DQ : string := String (ascii_of_nat 34) EmptyString.

(** The seven literals built from the dependency name (lines 81 to 87). *)
Definition patterns (dependency : string) : list string :=
  [ "require('" +:+ dependency +:+ "')";
    "import '" +:+ dependency +:+ "'";
    "import " +:+ DQ +:+ dependency +:+ DQ;
    "from '" +:+ dependency +:+ "'";
    "from " +:+ DQ +:+ dependency +:+ DQ;
    "import('" +:+ dependency +:+ "')";
    "import(" +:+ DQ +:+ dependency +:+ DQ +:+ ")" ].

Definition mentions (fileContent dependency : string) : bool :=
  existsb (Js.includes fileContent) (patterns dependency).

Definition presumedUsed (dependency : string) : bool :=
  Js.mem dependency exclusions || Js.startsWith dependency "@types/".

Section Usage.
Variable fs : FileSystem.

(** The callback of [files.some]: the file is read first, then the
    exclusion test, then the seven searches. *)
Definition usedIn (dependency file : string) : outcome bool :=
  match readFileSync fs file with
  | None => Throws
  | Some fileContent =>
      if presumedUsed dependency then Returns true
      else Returns (mentions fileContent dependency)
  end.

Definition dependencyUsed (depth : nat) (dependency : string) : outcome bool :=
  match getFiles fs depth (cwd fs) ∅ with
  | None => OutOfDepth
  | Some (files, _) => some (usedIn dependency) files
  end.

End Usage.

(** A parsed JSON object with string values, as the list of its entries in
    the order [Object.keys] enumerates them. *)
Definition JsObject := list (string * string).

Record PackageJSON := {
  scripts : option JsObject;
  dependencies : option JsObject;
  devDependencies : option JsObject
}.

Definition Object_keys (o : JsObject) : list string := o.*1.
Definition Object_values (o : JsObject) : list string := o.*2.

(** [field || {}]. *)
Definition orEmpty (field : option JsObject) : JsObject := default [] field.

Definition scriptUsed (packageJSON : PackageJSON) (dependency : string) : bool :=
  existsb (λ script, Js.includes script dependency)
          (Object_values (orEmpty (scripts packageJSON))).

(** ** The event loop: output, spawned commands, clock *)

(** [ConsoleLog line] and [ConsoleError line] are calls whose first argument
    is the fixed text [line] (in [getGlobal] the error object that follows it
    is left out).  [ConsoleErrorWith first arg] is the call
    [console.error(first, arg)] with a second string: what is printed is
    Node's formatting of the two (the first argument is read as a format, so
    it is [first], a space and [arg] only when [first] holds no [%]), and the
    trace keeps both arguments as they were given. *)
Inductive Event :=
| ConsoleLog (line : string)
| ConsoleError (line : string)
| ConsoleErrorWith (first : string) (arg : string)
| ClearLine
| CursorTo
| Question (prompt : string)
| Exec (command : string).

(** An element of the array given to [remove] is a name, or [undefined]
    ([None]) where [main] indexed outside the listing; [show] is its text
    in a template literal. *)
Definition show (dep : option string) : string := default "undefined" dep.

(** A command that was spawned and has not called back yet, with what its
    callback closes over. *)
Record Pending := {
  p_dependencies : list (option string);
  p_global : bool;
  p_startTime : Z;
  p_index : nat
}.

(** [ticks] counts the calls of [Date.now()] made so far. *)
Record World := {
  trace : list Event;
  inflight : list Pending;
  ticks : nat
}.

Definition emit (es : list Event) (w : World) : World :=
  {| trace := trace w ++ es; inflight := inflight w; ticks := ticks w |}.

Definition world0 : World := {| trace := []; inflight := []; ticks := 0 |}.

(** ** [getGlobal] *)

(** [npm_ls] is what [execSync] followed by [JSON.parse] gives, [None] when
    either throws; the text of the error that [console.error] prints after
    its first argument is left out. *)
Definition getGlobal (npm_ls : option PackageJSON) (w : World) : list string * World :=
  match npm_ls with
  | Some globalPackages => (Object_keys (orEmpty (dependencies globalPackages)), w)
  | None => ([], emit [ConsoleError "Error retrieving global packages:"] w)
  end.

(** ** Pure parts of [remove] and [main] *)

Definition plural (n : nat) : string := if (1 <? n)%nat then "ies" else "y".

Definition uninstallCommand (dep : option string) (global : bool) : string :=
  "npm uninstall " +:+ show dep +:+ " " +:+ (if global then "-g" else "").

Definition digitValue (c : ascii) : option nat :=
  let n := nat_of_ascii c in
  if (48 <=? n)%nat && (n <=? 57)%nat then Some (n - 48)%nat else None.

(** [answer.match(/\d/g)], each match already converted by [+n]. *)
Fixpoint matchDigits (answer : string) : list nat :=
  match answer with
  | EmptyString => []
  | String c rest =>
      match digitValue c with
      | Some n => n :: matchDigits rest
      | None => matchDigits rest
      end
  end.

(** [arr[k]] for an integer [k]: [undefined] outside the array. *)
Definition at_index (arr : list string) (k : Z) : option string :=
  if (k <? 0)%Z then None else arr !! Z.to_nat k.

(** [[...new Set(arr)]]: the first occurrence of each value, in order. *)
Definition newSet {A} `{EqDecision A} (arr : list A) : list A :=
  foldl (λ seen x, if bool_decide (x ∈ seen) then seen else seen ++ [x]) [] arr.

Definition selectedDeps (unused global : list string) (answer : string)
    : list (option string) :=
  newSet ((λ n, at_index (unused ++ global) (Z.of_nat n - 1)) <$> matchDigits answer).

(** [global.includes(dep)]. *)
Definition inGlobal (global : list string) (dep : option string) : bool :=
  match dep with
  | Some name => Js.mem name global
  | None => false
  end.

Definition allDeps (packageJSON : PackageJSON) : list string :=
  Object_keys (orEmpty (dependencies packageJSON))
  ++ Object_keys (orEmpty (devDependencies packageJSON)).

(** [allDeps.filter(dep => !dependencyUsed(dep) && !scriptUsed(dep))]. *)
Fixpoint unusedAmong (fs : FileSystem) (packageJSON : PackageJSON) (depth : nat)
    (deps : list string) : outcome (list string) :=
  match deps with
  | [] => Returns []
  | dep :: deps' =>
      dependencyUsed fs depth dep ≫= λ used : bool,
      unusedAmong fs packageJSON depth deps' ≫= λ rest : list string,
      Returns (if negb used && negb (scriptUsed packageJSON dep)
               then dep :: rest else rest)
  end.

Definition listing (unused global : list string) : list Event :=
  imap (λ i dep, ConsoleLog (pretty (i + 1)%nat +:+ ". " +:+ dep))
       (unused ++ ((λ dep, dep +:+ " (global)") <$> global)).

Definition prompt : string :=
  Js.LF +:+ "Enter numbers to remove (e.g. 1, 2, 4) or " +:+ DQ +:+ "all" +:+ DQ +:+ ": ".

(** ** [remove] and [main] *)

Section Remover.
(** [date_now k] is the value of the call number [k] of [Date.now()];
    [nearest_centis m] is the integer [n] that [toFixed(2)] picks for the
    double [m / 1000]: the one with [n / 100] nearest to it. *)
Variable date_now : nat → Z.
Variable nearest_centis : N → N.

Definition toFixed2 (ms : Z) : string :=
  let n := nearest_centis (Z.abs_N ms) in
  (if (ms <? 0)%Z then "-" else "") +:+ pretty (n / 100)%N +:+ "."
  +:+ pretty ((n / 10) `mod` 10)%N +:+ pretty (n `mod` 10)%N.

Definition summary (n : nat) (elapsed : Z) : string :=
  Js.LF +:+ "Removed " +:+ pretty n +:+ " dependenc" +:+ plural n +:+ " in "
  +:+ toFixed2 elapsed +:+ " seconds.".

(** [uninstallNext(index)]: the summary, or one more command spawned. *)
Definition uninstallNext (dependencies : list (option string)) (global : bool)
    (startTime : Z) (index : nat) (w : World) : World :=
  if (length dependencies <=? index)%nat then
    let elapsed := (date_now (ticks w) - startTime)%Z in
    {| trace := trace w ++ [ConsoleLog (summary (length dependencies) elapsed)];
       inflight := inflight w;
       ticks := S (ticks w) |}
  else
    let dep := default None (dependencies !! index) in
    {| trace := trace w ++ [Exec (uninstallCommand dep global)];
       inflight := inflight w ++
         [{| p_dependencies := dependencies; p_global := global;
             p_startTime := startTime; p_index := index |}];
       ticks := ticks w |}.

Definition remove (dependencies : list (option string)) (global : bool)
    (w : World) : World :=
  if (length dependencies =? 0)%nat then w
  else
    let startTime := date_now (ticks w) in
    uninstallNext dependencies global startTime 0
      {| trace := trace w; inflight := inflight w; ticks := S (ticks w) |}.

(** The callback given to [exec], run when the command ends. *)
Definition onExit (p : Pending) (err : bool) (stderr : string) (w : World) : World :=
  let dep := default None (p_dependencies p !! p_index p) in
  let w' :=
    if err then
      emit [ConsoleErrorWith (Js.LF +:+ "Error uninstalling " +:+ show dep +:+ ":") stderr] w
    else
      emit [ClearLine; CursorTo; ConsoleLog ("- Removed " +:+ show dep)] w in
  uninstallNext (p_dependencies p) (p_global p) (p_startTime p) (S (p_index p)) w'.

(** One turn of the event loop: the command at position [i] of those in
    flight ends with the given error flag and stderr. *)
Definition complete (i : nat) (err : bool) (stderr : string) (w : World) : World :=
  match inflight w !! i with
  | None => w
  | Some p =>
      onExit p err stderr
        {| trace := trace w; inflight := delete i (inflight w); ticks := ticks w |}
  end.

(** The commands end one after the other, the oldest first. *)
Fixpoint run (ends : list (bool * string)) (w : World) : World :=
  match ends with
  | [] => w
  | (err, stderr) :: ends' => run ends' (complete 0 err stderr w)
  end.

(** The callback of [rl.question]. *)
Definition onAnswer (unused global : list string) (answer : string) (w : World) : World :=
  if bool_decide (Js.toLowerCase answer = "all") then
    remove (Some <$> global) true (remove (Some <$> unused) false w)
  else
    let selected := selectedDeps unused global answer in
    remove (filter (λ dep, inGlobal global dep = true) selected) true
      (remove (filter (λ dep, inGlobal global dep = false) selected) false w).

(** [main], with the line the user answers as an argument. *)
Definition main (fs : FileSystem) (packageJSON : PackageJSON)
    (npm_ls : option PackageJSON) (depth : nat) (answer : string)
    (w : World) : outcome World :=
  unusedAmong fs packageJSON depth (allDeps packageJSON) ≫= λ unused : list string,
  let '(global, w1) := getGlobal npm_ls w in
  if (length unused =? 0)%nat && (length global =? 0)%nat then
    Returns (emit [ConsoleLog "No unused dependencies found."] w1)
  else
    Returns (onAnswer unused global answer
               (emit (listing unused global ++ [Question prompt]) w1)).

End Remover.

(** ** The time of the summary: [(ms / 1000).toFixed(2)]

    [ms / 1000] is the double nearest to the quotient (ties to the even
    mantissa), and [toFixed(2)] prints the integer [n] for which [n / 100] is
    nearest to that double, the larger one on a tie.  Both steps are exact
    integer arithmetic here.  Two readings of [Date.now()] differ by less
    than [2 ^ 53] ms; from [10 ^ 24] ms on [toFixed] prints an exponent,
    which is outside this model. *)

(** [a / b] rounded to the nearest integer, ties to the even one ([b > 0]). *)
Definition roundHalfEven (a b : Z) : Z :=
  let q := (a / b)%Z in
  let r := (a `mod` b)%Z in
  if (2 * r <? b)%Z then q
  else if (b <? 2 * r)%Z then (q + 1)%Z
  else if Z.even q then q else (q + 1)%Z.

(** The double nearest to [ms / 1000], for [ms ≥ 0], as a mantissa [M] of at
    most 53 bits and a binary exponent: its value is [M / 2 ^ k]. *)
Definition doubleOfMillis (ms : Z) : Z * Z :=
  let L := Z.log2 ms in
  let k := if (ms * 512 <? 1000 * 2 ^ L)%Z then (62 - L)%Z else (61 - L)%Z in
  (if (0 <=? k)%Z then roundHalfEven (ms * 2 ^ k) 1000
   else roundHalfEven ms (1000 * 2 ^ (- k)), k).

(** The integer [toFixed(2)] picks for the double [m / 1000]. *)
Definition nearestCentis (m : N) : N :=
  let '(M, k) := doubleOfMillis (Z.of_N m) in
  Z.to_N (if (0 <=? k)%Z then (200 * M + 2 ^ k) / 2 ^ (k + 1)
          else 100 * M * 2 ^ (- k))%Z.

(** A clock that is set back by half a second between two readings. *)
Definition clockBack (k : nat) : Z := (1000 - Z.of_nat k * 500)%Z.

(** ** Finite file systems given by a table

    A table lists the paths that exist.  A link carries the real path its
    resolution ends at, or [None] when [realpathSync] throws on it (a
    dangling link, or links that only point at each other). *)

Inductive Node :=
| Dir (entries : list string)
| File (content : string)
| Link (real : option string).

Fixpoint assoc {A} (t : list (string * A)) (p : string) : option A :=
  match t with
  | [] => None
  | (k, v) :: t' => if bool_decide (k = p) then Some v else assoc t' p
  end.

Definition tableFs (t : list (string * Node)) (cwd : string) : FileSystem :=
  {| realpathSync p :=
       match assoc t p with
       | Some (Link real) => real
       | Some _ => Some p
       | None => None
       end;
     readdirSync p :=
       match assoc t p with Some (Dir entries) => Some entries | _ => None end;
     lstatSync p :=
       match assoc t p with
       | Some (Dir _) => Some Directory
       | Some (File _) => Some OtherEntry
       | Some (Link _) => Some SymbolicLink
       | None => None
       end;
     readFileSync p :=
       match assoc t p with Some (File content) => Some content | _ => None end;
     cwd := cwd |}.

(** A project whose tree loops through links: [/proj/src/back] leads back to
    [/proj], and [/proj/ring1], [/proj/ring2] point at each other. *)
Definition loopTable : list (string * Node) :=
  [ ("/proj", Dir ["index.js"; "src"; "node_modules"; "ring1"; "ring2"; "notes.txt"; "gone"]);
    ("/proj/index.js", File "import _ from 'lodash'");
    ("/proj/src", Dir ["util.ts"; "back"; ".github"]);
    ("/proj/src/util.ts", File "export const one = 1");
    ("/proj/src/back", Link (Some "/proj"));
    ("/proj/src/.github", Dir ["action.js"]);
    ("/proj/src/.github/action.js", File "require('left-pad')");
    ("/proj/node_modules", Dir ["lodash.js"]);
    ("/proj/node_modules/lodash.js", File "module.exports = {}");
    ("/proj/ring1", Link None);
    ("/proj/ring2", Link None);
    ("/proj/notes.txt", File "import 'left-pad'") ].

Definition loopFs : FileSystem := tableFs loopTable "/proj".

(** A project that holds its manifest and no source file. *)
Definition bareFs : FileSystem :=
  tableFs [ ("/bare", Dir ["package.json"]); ("/bare/package.json", File "{}") ] "/bare".

(** A project checked out in a directory whose own name contains [.git]. *)
Definition pagesFs : FileSystem :=
  tableFs [ ("/home/u/site.github.io", Dir ["index.js"]);
            ("/home/u/site.github.io/index.js", File "import 'lodash'") ]
          "/home/u/site.github.io".

(** One source file with the given text. *)
Definition oneFileFs (content : string) : FileSystem :=
  tableFs [ ("/app", Dir ["main.js"]); ("/app/main.js", File content) ] "/app".

(** The manifest of the example: one dependency, one development dependency. *)
Definition manifestAB : PackageJSON :=
  {| scripts := None;
     dependencies := Some [("a", "1.0.0")];
     devDependencies := Some [("b", "1.0.0")] |}.

(** A clock that advances by 1234 ms between two readings, and rounding of
    the decimal value, half up. *)
Definition clock1234 (k : nat) : Z := (Z.of_nat k * 1234)%Z.
Definition halfUp (m : N) : N := ((m + 5) / 10)%N.

(** ** Notions the statements use *)

(** The directories that can be listed all belong to the finite set [D]. *)
Definition listable_within (fs : FileSystem) (D : gset string) : Prop :=
  ∀ p l, readdirSync fs p = Some l → p ∈ D.

(** What is left to visit. *)
Definition todo (D visited : gset string) : nat := size (D ∖ visited).

(** [f] lies beneath the path [P]. *)
Definition beneath (P f : string) : bool := String.prefix (P +:+ "/") f.

Fixpoint noSep (name : string) : bool :=
  match name with
  | EmptyString => true
  | String c name' => negb (bool_decide (c = "/"%char)) && noSep name'
  end.

(** A static file system: directory entries are plain names, a resolved
    path resolves to itself, and a directory entry that is a directory and
    no link is its own real path. *)
Record static (fs : FileSystem) : Prop := {
  entries_plain : ∀ d entries name,
    readdirSync fs d = Some entries → name ∈ entries → noSep name = true;
  realpath_idem : ∀ p q, realpathSync fs p = Some q → realpathSync fs q = Some q;
  realpath_child : ∀ d name q,
    realpathSync fs d = Some d →
    lstatSync fs (Path.join d name) = Some Directory →
    realpathSync fs (Path.join d name) = Some q → q = Path.join d name
}.

(** The check of [static] on a table. *)
Definition staticTable (t : list (string * Node)) : bool :=
  forallb (λ e, match e.2 with
                | Dir entries => forallb noSep entries
                | File _ => true
                | Link (Some q) =>
                    match assoc t q with
                    | Some (Dir _) | Some (File _) => true
                    | _ => false
                    end
                | Link None => true
                end) t.

(** Every collected file can be read. *)
Definition readable (fs : FileSystem) (files : list string) : Prop :=
  ∀ f, f ∈ files → is_Some (readFileSync fs f).

(** Some collected file's text contains one of the seven literals. *)
Definition referenced (fs : FileSystem) (files : list string) (dependency : string) : Prop :=
  ∃ f content pat,
    f ∈ files ∧ readFileSync fs f = Some content
    ∧ pat ∈ patterns dependency ∧ Js.includes content pat = true.

#[global] Instance outcome_eq_dec {A} `{EqDecision A} : EqDecision (outcome A).
Proof. solve_decision. Defined.

(** The manifest of the example with any [scripts] field. *)
Definition manifestABwith (sc : option JsObject) : PackageJSON :=
  {| scripts := sc;
     dependencies := Some [("a", "1.0.0")];
     devDependencies := Some [("b", "1.0.0")] |}.

(** A manifest that declares the same name in both mappings. *)
Definition manifestTwice : PackageJSON :=
  {| scripts := None;
     dependencies := Some [("x", "1.0.0")];
     devDependencies := Some [("x", "2.0.0")] |}.

(** What one item of [remove] leaves in the trace: its command, then the
    error call (with the name in its first argument and the command's stderr
    as its second) or the confirmation. *)
Definition response (dep : option string) (e : bool * string) : list Event :=
  if e.1 then
    [ConsoleErrorWith (Js.LF +:+ "Error uninstalling " +:+ show dep +:+ ":") e.2]
  else [ClearLine; CursorTo; ConsoleLog ("- Removed " +:+ show dep)].

Definition itemEvents (global : bool) (dep : option string) (e : bool * string)
    : list Event :=
  Exec (uninstallCommand dep global) :: response dep e.

Definition itemsEvents (global : bool) (deps : list (option string))
    (ends : list (bool * string)) : list Event :=
  concat (zip_with (itemEvents global) deps ends).

(** The entry at the 1-based position [n] of the listing, if there is one. *)
Definition listed (arr : list string) (n : nat) : option string :=
  match n with
  | O => None
  | S k => arr !! k
  end.

(** The events a call of [onAnswer] adds to the trace. *)
Definition added (w w' : World) : list Event := drop (length (trace w)) (trace w').

Definition isExec (e : Event) : bool :=
  match e with Exec _ => true | _ => false end.

Definition isMessage (e : Event) : bool :=
  match e with
  | ConsoleLog _ | ConsoleError _ | ConsoleErrorWith _ _ => true
  | _ => false
  end.

(** ** Notions for the walk as a whole *)

(** [q] is a sub-directory the walk enters from the listed directory [x]:
    an entry that is a directory and no link, whose path passes the test
    of line 51, resolved to [q]. *)
Definition child (fs : FileSystem) (x q : string) : Prop :=
  ∃ entries name,
    readdirSync fs x = Some entries ∧ name ∈ entries
    ∧ lstatSync fs (Path.join x name) = Some Directory
    ∧ skipped (Path.join x name) = false
    ∧ realpathSync fs (Path.join x name) = Some q ∧ q ≠ EmptyString.

(** [f] is an entry of the listed directory [x] that is neither a link nor
    a directory and has one of the six extensions. *)
Definition sourceFile (fs : FileSystem) (x f : string) : Prop :=
  ∃ entries name,
    readdirSync fs x = Some entries ∧ name ∈ entries
    ∧ f = Path.join x name
    ∧ lstatSync fs f = Some OtherEntry
    ∧ Js.mem (Path.extname name) extensions = true.

(** A visited directory is finished: its source files are among the
    results and the sub-directories the walk enters from it are visited. *)
Definition finished (fs : FileSystem) (files : list string) (v : gset string)
    (x : string) : Prop :=
  (∀ f, sourceFile fs x f → f ∈ files) ∧ (∀ q, child fs x q → q ∈ v).

(** The project of [oneFileFs] with a source file that cannot be read. *)
Definition lockedFs : FileSystem :=
  {| realpathSync := realpathSync (oneFileFs "secret");
     readdirSync := readdirSync (oneFileFs "secret");
     lstatSync := lstatSync (oneFileFs "secret");
     readFileSync := λ _, None;
     cwd := "/app" |}.

(** A manifest whose script mentions one of its four names. *)
Definition manifestTools : PackageJSON :=
  {| scripts := Some [("build", "tsc -p .")];
     dependencies := Some [("lodash", "4.0.0")];
     devDependencies := Some [("typescript", "5.0.0"); ("@types/node", "20.0.0");
                              ("tsc", "1.0.0")] |}.

(** The answer made of the one digit [n]. *)
Definition digitAnswer (n : nat) : string :=
  String (ascii_of_nat (48 + n)) EmptyString.

(** What [npm ls] gives when no package is installed globally. *)
Definition noGlobals : PackageJSON :=
  {| scripts := None; dependencies := None; devDependencies := None |}.

(** ** The build script [scripts/index.js]

    The script lists the compiler's output directory and renames each entry
    whose name ends with [.js].  The directory is modelled by the finite map
    from the names of its entries to their contents (its entries are files),
    and the listing by the list of names [readdirSync] returned. *)

(** [s.endsWith(suffix)]. *)
Fixpoint endsWith (s suffix : string) : bool :=
  bool_decide (s = suffix) ||
  match s with
  | EmptyString => false
  | String _ s' => endsWith s' suffix
  end.

(** [file.replace(/\.js$/, '.cjs')]: only a [.js] that ends the name is
    replaced. *)
Fixpoint replaceJsSuffix (file : string) : string :=
  if bool_decide (file = ".js") then ".cjs"
  else match file with
       | EmptyString => EmptyString
       | String c file' => String c (replaceJsSuffix file')
       end.

(** [fs.renameSync(old, new)] inside the directory: it throws ([None]) when
    [old] does not exist, and replaces the file [new] when there is one. *)
Definition renameSync (old new : string) (dir : gmap string string)
    : option (gmap string string) :=
  match dir !! old with
  | None => None
  | Some content => Some (<[new := content]> (delete old dir))
  end.

(** The [forEach] over the names the listing returned. *)
Fixpoint renameOutputs (names : list string) (dir : gmap string string)
    : option (gmap string string) :=
  match names with
  | [] => Some dir
  | file :: rest =>
      if endsWith file ".js" then
        match renameSync file (replaceJsSuffix file) dir with
        | None => None
        | Some dir' => renameOutputs rest dir'
        end
      else renameOutputs rest dir
  end.

(** [names] is a listing of [dir]: each entry once. *)
Definition listingOf (names : list string) (dir : gmap string string) : Prop :=
  NoDup names ∧ ∀ name, name ∈ names ↔ is_Some (dir !! name).

(** An output directory where a [.cjs] file of an earlier build is left. *)
Definition libDir : gmap string string :=
  {[ "index.js" := "new code"; "index.cjs" := "old code";
     "index.d.ts" := "types"; "util.js" := "helpers" ]}.

(** * Properties *)

(** ** The model on small inputs *)

Example extname_examples :
  Path.extname "index.ts" = ".ts" ∧ Path.extname "a.test.jsx" = ".jsx"
  ∧ Path.extname ".eslintrc" = "" ∧ Path.extname "README" = ""
  ∧ Path.extname "..mjs" = ".mjs" ∧ Path.extname "trailing." = ".".
Proof. by repeat split. Qed.

Example join_examples :
  Path.join "/proj" "src" = "/proj/src" ∧ Path.join "/" "etc" = "/etc".
Proof. by split. Qed.

Example includes_examples :
  Js.includes "/proj/.github/x" ".git" = true
  ∧ Js.includes "import 'lodash-es'" "import 'lodash'" = false
  ∧ Js.includes "anything" "" = true.
Proof. by repeat split. Qed.

Example toLowerCase_examples :
  Js.toLowerCase "ALL" = "all" ∧ Js.toLowerCase "All " = "all ".
Proof. by split. Qed.

Example matchDigits_examples :
  matchDigits "1, 2, 4" = [1; 2; 4] ∧ matchDigits "10" = [1; 0]
  ∧ matchDigits "none" = [].
Proof. by repeat split. Qed.

Example getFiles_loop :
  fst <$> getFiles loopFs 3 "/proj" ∅ = Some ["/proj/index.js"; "/proj/src/util.ts"]
  ∧ getFiles loopFs 1 "/proj" ∅ = None.
Proof. by vm_compute. Qed.

Example listing_example :
  listing ["a"] ["g"] = [ConsoleLog "1. a"; ConsoleLog "2. g (global)"].
Proof. reflexivity. Qed.

Example main_nothing_to_do :
  main clock1234 halfUp bareFs
       {| scripts := None; dependencies := None; devDependencies := None |}
       None 3 "all" world0
  = Returns {| trace := [ConsoleError "Error retrieving global packages:";
                         ConsoleLog "No unused dependencies found."];
               inflight := []; ticks := 0 |}.
Proof. by vm_compute. Qed.

Example main_selects_local_and_global :
  trace <$> (match main clock1234 halfUp loopFs manifestAB
                     (Some {| scripts := None;
                              dependencies := Some [("npm", "10.0.0")];
                              devDependencies := None |})
                     3 "1 3" world0 with
             | Returns w => Some w
             | _ => None
             end)
  = Some [ ConsoleLog "1. a"; ConsoleLog "2. b"; ConsoleLog "3. npm (global)";
           Question prompt;
           Exec "npm uninstall a "; Exec "npm uninstall npm -g" ].
Proof. by vm_compute. Qed.

Example three_items_second_fails :
  trace (run clock1234 halfUp [(false, ""); (true, "E404"); (false, "")]
           (remove clock1234 halfUp [Some "a"; Some "b"; Some "c"] false world0))
  = [ Exec "npm uninstall a "; ClearLine; CursorTo; ConsoleLog "- Removed a";
      Exec "npm uninstall b ";
      ConsoleErrorWith (Js.LF +:+ "Error uninstalling b:") "E404";
      Exec "npm uninstall c "; ClearLine; CursorTo; ConsoleLog "- Removed c";
      ConsoleLog (Js.LF +:+ "Removed 3 dependencies in 1.23 seconds.") ].
Proof. by vm_compute. Qed.

(** ** Strings *)

Lemma append_cons a s t : String a s +:+ t = String a (s +:+ t).
Proof. reflexivity. Qed.

Lemma append_nil t : EmptyString +:+ t = t.
Proof. reflexivity. Qed.

Ltac unfold_append := rewrite ?append_cons, ?append_nil.

Lemma append_assoc s t u : s +:+ t +:+ u = (s +:+ t) +:+ u.
Proof. induction s as [|a s IH]; unfold_append; [done|by rewrite IH]. Qed.

Lemma prefix_cons a b s t :
  String.prefix (String a s) (String b t) = true ↔ a = b ∧ String.prefix s t = true.
Proof.
  simpl. destruct (ascii_dec a b) as [->|Hne]; [tauto|].
  split; [discriminate|]. intros [? _]. contradiction.
Qed.

Lemma prefix_nil_r s : String.prefix s EmptyString = true → s = EmptyString.
Proof. by destruct s. Qed.

Lemma prefix_nil_l s : String.prefix EmptyString s = true.
Proof. by destruct s. Qed.

Lemma prefix_app p s c :
  String.prefix p s = true → String.prefix p (s +:+ c) = true.
Proof.
  revert s. induction p as [|a p IH]; intros s; [by rewrite !prefix_nil_l|].
  destruct s as [|b s]; [done|]. unfold_append.
  rewrite !prefix_cons. intros [-> H]. split; [done|by apply IH].
Qed.

Lemma prefix_drop_sep p d :
  String.prefix (p +:+ "/") d = true → String.prefix p d = true.
Proof.
  revert d. induction p as [|a p IH]; intros d; [by rewrite prefix_nil_l|].
  destruct d as [|b d]; [done|]. unfold_append.
  rewrite !prefix_cons. intros [-> H]. split; [done|by apply IH].
Qed.

Lemma prefix_sep_both p d :
  String.prefix (p +:+ "/") (d +:+ "/") = true → String.prefix p d = true.
Proof.
  revert d. induction p as [|a p IH]; intros d; [by rewrite prefix_nil_l|].
  destruct d as [|b d]; unfold_append.
  - rewrite prefix_cons. intros [_ H]. apply prefix_nil_r in H. by destruct p.
  - rewrite !prefix_cons. intros [-> H]. split; [done|by apply IH].
Qed.

(** A name without separator has no prefix that ends with one. *)
Lemma prefix_sep_plain p name :
  noSep name = true → String.prefix (p +:+ "/") name = false.
Proof.
  revert name. induction p as [|a p IH]; intros name Hn; unfold_append;
    (destruct name as [|b name]; [done|]);
    cbn [noSep] in Hn; apply andb_true_iff in Hn as [Hb Hn];
    apply not_true_is_false; rewrite prefix_cons; intros [<- H].
  - by rewrite bool_decide_eq_true_2 in Hb.
  - by rewrite IH in H.
Qed.

(** A prefix that ends with a separator does not reach into the last name. *)
Lemma prefix_sep_before p d name :
  noSep name = true →
  String.prefix (p +:+ "/") (d +:+ name) = true →
  String.prefix (p +:+ "/") d = true.
Proof.
  intros Hn. revert p. induction d as [|b d IH]; intros p; unfold_append.
  - by rewrite prefix_sep_plain.
  - destruct p as [|a p]; unfold_append; rewrite !prefix_cons.
    + rewrite !prefix_nil_l. tauto.
    + intros [-> H]. split; [done|]. by apply IH.
Qed.

Lemma includes_app s sub c :
  Js.includes s sub = true → Js.includes (s +:+ c) sub = true.
Proof.
  induction s as [|a s IH]; unfold_append; cbn [Js.includes].
  - rewrite orb_false_r. intros H. apply prefix_nil_r in H as ->.
    by destruct c.
  - rewrite !orb_true_iff. intros [H|H]; [left|right; auto].
    by apply (prefix_app sub (String a s) c).
Qed.

Lemma prefix_split p d :
  String.prefix p d = true → ∃ c, d = p +:+ c.
Proof.
  revert d. induction p as [|a p IH]; intros d; [by exists d|].
  destruct d as [|b d]; [done|]. rewrite prefix_cons. intros [-> H].
  destruct (IH d H) as [c ->]. by exists c.
Qed.

Lemma skipped_prefix p d :
  String.prefix p d = true → skipped p = true → skipped d = true.
Proof.
  intros Hp. apply prefix_split in Hp as [c ->]. unfold skipped.
  rewrite !orb_true_iff. intros [[H|H]|H]; eauto using includes_app.
Qed.

Lemma ends_with_sep_join d name :
  Path.join d name = d +:+ name ∨ Path.join d name = (d +:+ "/") +:+ name.
Proof.
  unfold Path.join. destruct (Path.ends_with_sep d); [by left|right].
  apply append_assoc.
Qed.

(** A file that lies beneath [p] and directly in [d]: [p] is an initial
    part of [d]. *)
Lemma beneath_join p d name :
  noSep name = true → beneath p (Path.join d name) = true →
  String.prefix p d = true.
Proof.
  unfold beneath. intros Hn.
  destruct (ends_with_sep_join d name) as [-> | ->]; intros H;
    apply prefix_sep_before in H; try done.
  - by apply prefix_drop_sep.
  - by apply prefix_sep_both.
Qed.

(** ** Tables *)

Lemma assoc_elem {A} (t : list (string * A)) p v :
  assoc t p = Some v → (p, v) ∈ t.
Proof.
  induction t as [|[k x] t IH]; simpl; [done|].
  case_bool_decide as Hk.
  - intros [= ->]. subst. left.
  - intros H. right. auto.
Qed.

Lemma tableFs_listable t c :
  listable_within (tableFs t c) (list_to_set t.*1).
Proof.
  intros p l. simpl. destruct (assoc t p) as [n|] eqn:Hp; [|done].
  intros _. apply assoc_elem in Hp. apply elem_of_list_to_set.
  apply list_elem_of_fmap. by exists (p, n).
Qed.

Lemma tableFs_static t c : staticTable t = true → static (tableFs t c).
Proof.
  unfold staticTable. rewrite forallb_forall. intros Hall.
  assert (∀ p n, assoc t p = Some n →
    match n with
    | Dir entries => forallb noSep entries = true
    | Link (Some q) =>
        match assoc t q with Some (Dir _) | Some (File _) => true | _ => false end = true
    | _ => True
    end) as Hchk.
  { intros p n Hp. apply assoc_elem, list_elem_of_In, Hall in Hp. simpl in Hp.
    by destruct n as [| |[q|]]. }
  split; simpl.
  - intros d entries name Hd Hin.
    destruct (assoc t d) as [[es| |]|] eqn:Ha; simplify_eq.
    apply Hchk in Ha. rewrite forallb_forall in Ha.
    by apply Ha, list_elem_of_In.
  - intros p q Hp.
    destruct (assoc t p) as [[es| |[r|]]|] eqn:Ha; simplify_eq; try by rewrite Ha.
    apply Hchk in Ha. by destruct (assoc t q) as [[| |]|].
  - intros d name q _ Hst.
    by destruct (assoc t (Path.join d name)) as [[| |]|]; intros; simplify_eq.
Qed.

(** ** [getFiles]: termination *)

Lemma todo_mono (D v v' : gset string) : v ⊆ v' → todo D v' ≤ todo D v.
Proof. intros Hs. apply subseteq_size. set_solver. Qed.

Lemma todo_visit (D v : gset string) (p : string) :
  p ∈ D → p ∉ v → todo D (v ∪ {[p]}) < todo D v.
Proof.
  intros Hin Hnv. apply subset_size.
  split; [set_solver|]. intros Hsub.
  assert (p ∈ D ∖ (v ∪ {[p]})) as Hp by (apply Hsub; set_solver).
  set_solver.
Qed.

Section Termination.
Variable fs : FileSystem.
Variable D : gset string.
Hypothesis HD : listable_within fs D.

Lemma scan_total recur k :
  (∀ p v, todo D v < k → ∃ r v', recur p v = Some (r, v') ∧ v ⊆ v') →
  ∀ realPath entries results v, todo D v < k →
    ∃ r v', scan fs recur realPath entries results v = Some (r, v') ∧ v ⊆ v'.
Proof.
  intros Hrec realPath entries.
  induction entries as [|file rest IH]; intros results v Hk; simpl.
  - eauto.
  - destruct (lstatSync fs (Path.join realPath file)) as [stat|]; [|by apply IH].
    destruct (isSymbolicLink stat); [by apply IH|].
    destruct (isDirectory stat).
    + destruct (skipped _); [by apply IH|].
      destruct (Hrec (Path.join realPath file) v Hk) as (sub & v1 & -> & Hsub).
      destruct (IH (results ++ sub) v1) as (r & v' & Hr & Hsub').
      { pose proof (todo_mono D _ _ Hsub). lia. }
      exists r, v'. split; [done|]. by transitivity v1.
    + destruct (Js.mem _ _); by apply IH.
Qed.

(** Enough depth gives a result; the set only grows, and the resolved
    directory is in it afterwards. *)
Lemma getFiles_total depth :
  ∀ dir v, todo D v < depth →
    ∃ r v', getFiles fs depth dir v = Some (r, v') ∧ v ⊆ v' ∧
            ∀ p, realpathSync fs dir = Some p → p ≠ EmptyString → p ∈ v'.
Proof.
  induction depth as [|depth IH]; intros dir v Hlt; [lia|]. simpl.
  destruct (realpathSync fs dir) as [realPath|]; [|by exists [], v].
  case_bool_decide as He; simpl.
  { exists [], v. by split_and!; [..|intros ? [= <-]]. }
  case_bool_decide as Hv; simpl.
  { exists [], v. by split_and!; [..|intros ? [= <-]]. }
  destruct (readdirSync fs realPath) as [entries|] eqn:Hl.
  - apply HD in Hl.
    pose proof (todo_visit D v realPath Hl Hv) as Hdec.
    destruct (scan_total (getFiles fs depth) depth) with
      (realPath := realPath) (entries := entries) (results := @nil string)
      (v := v ∪ {[realPath]}) as (r & v' & Hr & Hsub); [|lia|].
    { intros p w Hw. destruct (IH p w Hw) as (r & w' & ? & ? & _). eauto. }
    exists r, v'. split_and!; [done|set_solver|]. intros ? [= <-] _. set_solver.
  - exists [], (v ∪ {[realPath]}).
    split_and!; [done|set_solver|]. intros ? [= <-] _. set_solver.
Qed.

End Termination.

(** A directory that is in the set is not read again. *)
Lemma getFiles_marked fs depth dir (v : gset string) :
  (∀ p, realpathSync fs dir = Some p → p ≠ EmptyString → p ∈ v) →
  getFiles fs (S depth) dir v = Some ([], v).
Proof.
  intros Hm. simpl. destruct (realpathSync fs dir) as [p|]; [|done].
  case_bool_decide as He; [done|]. simpl.
  by rewrite bool_decide_eq_true_2 by auto.
Qed.

(** ** [getFiles]: what the results are *)

Section Results.
Variable fs : FileSystem.
(** [R] holds of the directories that are listed, [Q] of the results. *)
Variables R Q : string → Prop.
Hypothesis Hfile : ∀ d entries name,
  R d → readdirSync fs d = Some entries → name ∈ entries →
  lstatSync fs (Path.join d name) = Some OtherEntry →
  Js.mem (Path.extname name) extensions = true →
  Q (Path.join d name).
Hypothesis Hdir : ∀ d entries name r,
  R d → readdirSync fs d = Some entries → name ∈ entries →
  lstatSync fs (Path.join d name) = Some Directory →
  skipped (Path.join d name) = false →
  realpathSync fs (Path.join d name) = Some r → R r.

Lemma scan_results recur realPath all :
  R realPath → readdirSync fs realPath = Some all →
  (∀ p v sub v', (∀ r, realpathSync fs p = Some r → R r) →
     recur p v = Some (sub, v') → Forall Q sub) →
  ∀ entries results v res v',
    entries ⊆ all → Forall Q results →
    scan fs recur realPath entries results v = Some (res, v') → Forall Q res.
Proof.
  intros HR Hall Hrec entries.
  induction entries as [|file rest IH]; intros results v res v' Hsub HQ; simpl.
  { by intros [= <- _]. }
  assert (file ∈ all) as Hin by (apply Hsub; left).
  assert (rest ⊆ all) as Hrest by (intros x Hx; apply Hsub; by right).
  destruct (lstatSync fs (Path.join realPath file)) as [stat|] eqn:Hst; [|by eauto].
  destruct stat; simpl; [by eauto|..].
  - destruct (skipped _) eqn:Hsk; [by eauto|].
    destruct (recur (Path.join realPath file) v) as [[sub v1]|] eqn:Hr; [|done].
    apply IH; [done|]. apply Forall_app. split; [done|].
    eapply Hrec; [|done]. intros r Hrp. eauto.
  - destruct (Js.mem _ _) eqn:Hext; [|by eauto].
    apply IH; [done|]. apply Forall_app. split; [done|].
    apply Forall_singleton. eauto.
Qed.

Lemma getFiles_results depth :
  ∀ dir v files v',
    (∀ r, realpathSync fs dir = Some r → R r) →
    getFiles fs depth dir v = Some (files, v') → Forall Q files.
Proof.
  induction depth as [|depth IH]; intros dir v files v' HR; [done|]. simpl.
  destruct (realpathSync fs dir) as [realPath|]; [|by intros [= <- _]].
  destruct (_ || _); [by intros [= <- _]|].
  destruct (readdirSync fs realPath) as [entries|] eqn:Hl; [|by intros [= <- _]].
  by apply (scan_results (getFiles fs depth) realPath entries); auto.
Qed.

End Results.

(** The recursion bound is an artefact of the model: a larger one gives
    the same result. *)
Lemma scan_mono fs recur recur' realPath :
  (∀ p v r, recur p v = Some r → recur' p v = Some r) →
  ∀ entries results v r,
    scan fs recur realPath entries results v = Some r →
    scan fs recur' realPath entries results v = Some r.
Proof.
  intros Hrec entries.
  induction entries as [|file rest IH]; intros results v r; simpl; [done|].
  destruct (lstatSync fs (Path.join realPath file)) as [stat|]; [|by apply IH].
  destruct (isSymbolicLink stat); [by apply IH|].
  destruct (isDirectory stat); [|by destruct (Js.mem _ _); apply IH].
  destruct (skipped _); [by apply IH|].
  destruct (recur (Path.join realPath file) v) as [[sub v1]|] eqn:Hr; [|done].
  rewrite (Hrec _ _ _ Hr). apply IH.
Qed.

Lemma getFiles_mono fs depth :
  ∀ dir v r, getFiles fs depth dir v = Some r → getFiles fs (S depth) dir v = Some r.
Proof.
  induction depth as [|depth IH]; intros dir v r; [done|].
  intros H. simpl in H. cbn [getFiles].
  destruct (realpathSync fs dir) as [realPath|]; [|done].
  destruct (_ || _); [done|].
  destruct (readdirSync fs realPath) as [entries|]; [|done].
  by apply (scan_mono fs (getFiles fs depth)).
Qed.

Lemma getFiles_deeper fs depth depth' dir v r :
  depth ≤ depth' → getFiles fs depth dir v = Some r → getFiles fs depth' dir v = Some r.
Proof.
  induction 1 as [|m _ IH]; [done|]. intros H. by apply getFiles_mono, IH.
Qed.

(** C4.  On every file system whose listable directories form a finite set
    [D] (links and loops through links included), [getFiles] returns: a
    recursion bound above the number of directories not yet visited is never
    reached, and a larger bound gives the same files.  The set of visited
    real paths only grows, a second call on the
    same directory finds it marked and reads nothing, and every path returned
    is an entry that [lstatSync] reports as neither a link nor a directory. *)
Theorem getFiles_terminates (fs : FileSystem) (D : gset string) :
  listable_within fs D →
  ∀ dir visited depth, todo D visited < depth →
    ∃ files visited',
      getFiles fs depth dir visited = Some (files, visited')
      ∧ (∀ depth', depth ≤ depth' →
           getFiles fs depth' dir visited = Some (files, visited'))
      ∧ visited ⊆ visited'
      ∧ getFiles fs depth dir visited' = Some ([], visited')
      ∧ ∀ f, f ∈ files → lstatSync fs f = Some OtherEntry.
Proof.
  intros HD dir visited depth Hlt.
  destruct (getFiles_total fs D HD depth dir visited Hlt)
    as (files & visited' & Hrun & Hsub & Hmark).
  exists files, visited'. split_and!; [done| |done|..].
  - intros depth' Hle. by apply (getFiles_deeper fs depth depth').
  - destruct depth as [|depth]; [lia|]. by apply getFiles_marked.
  - apply Forall_forall.
    eapply (getFiles_results fs (λ _, True) (λ f, lstatSync fs f = Some OtherEntry));
      [by auto|by auto| |exact Hrun].
    done.
Qed.

Lemma getFiles_terminates_witness :
  ∃ files visited',
    getFiles loopFs 13 "/proj/src/back" ∅ = Some (files, visited')
    ∧ (∀ depth', 13 ≤ depth' →
         getFiles loopFs depth' "/proj/src/back" ∅ = Some (files, visited'))
    ∧ ∅ ⊆ visited'
    ∧ getFiles loopFs 13 "/proj/src/back" visited' = Some ([], visited')
    ∧ ∀ f, f ∈ files → lstatSync loopFs f = Some OtherEntry.
Proof.
  apply (getFiles_terminates loopFs (list_to_set loopTable.*1)
           (tableFs_listable loopTable "/proj") "/proj/src/back" ∅ 13).
  vm_compute. lia.
Defined.

(** C6, as the code has it.  On a static file system [getFiles] returns no
    file beneath a path [P] that contains [node_modules], [.vscode] or [.git],
    unless [P] is an initial part of the resolved root directory itself: the
    test is made on the sub-directories met during the walk, never on the
    directory the walk starts from. *)
Theorem getFiles_skips (fs : FileSystem) (D : gset string) :
  static fs → listable_within fs D →
  ∀ dir root visited depth,
    realpathSync fs dir = Some root → todo D visited < depth →
    ∃ files visited',
      getFiles fs depth dir visited = Some (files, visited')
      ∧ ∀ P f, skipped P = true → String.prefix P root = false →
               f ∈ files → beneath P f = false.
Proof.
  intros Hst HD dir root visited depth Hroot Hlt.
  destruct (getFiles_total fs D HD depth dir visited Hlt)
    as (files & visited' & Hrun & _).
  exists files, visited'. split; [done|]. intros P f HP Hnot Hf.
  pose (R := λ d, realpathSync fs d = Some d ∧ (d = root ∨ skipped d = false)).
  pose (Q := λ f, ∃ d name, (d = root ∨ skipped d = false)
                            ∧ noSep name = true ∧ f = Path.join d name).
  assert (Forall Q files) as HQ.
  { eapply (getFiles_results fs R Q); [| | |exact Hrun].
    - intros d entries name [_ Hd] Hl Hin _ _. exists d, name.
      split_and!; [done| |done]. by eapply (entries_plain fs Hst).
    - intros d entries name r [Hd _] Hl Hin Hdir Hsk Hr.
      pose proof (realpath_child fs Hst d name r Hd Hdir Hr) as ->.
      split; [done|by right].
    - intros r Hr. rewrite Hroot in Hr. injection Hr as <-. split; [|by left].
      by apply (realpath_idem fs Hst dir). }
  rewrite Forall_forall in HQ. destruct (HQ f Hf) as (d & name & Hd & Hn & ->).
  apply not_true_is_false. intros Hb.
  apply beneath_join in Hb; [|done].
  destruct Hd as [->|Hd]; [congruence|].
  by rewrite (skipped_prefix P d Hb HP) in Hd.
Qed.

Lemma getFiles_skips_witness :
  ∃ files visited',
    getFiles loopFs 13 "/proj" ∅ = Some (files, visited')
    ∧ ∀ P f, skipped P = true → String.prefix P "/proj" = false →
             f ∈ files → beneath P f = false.
Proof.
  apply (getFiles_skips loopFs (list_to_set loopTable.*1)
           (tableFs_static loopTable "/proj" eq_refl)
           (tableFs_listable loopTable "/proj") "/proj" "/proj" ∅ 13 eq_refl).
  vm_compute. lia.
Defined.

(** C6, as stated, fails when the directory the walk starts from contains
    one of the three substrings: its own files are returned. *)
Lemma getFiles_root_not_tested :
  fst <$> getFiles pagesFs 2 "/home/u/site.github.io" ∅
    = Some ["/home/u/site.github.io/index.js"]
  ∧ skipped "/home/u/site.github.io" = true
  ∧ beneath "/home/u/site.github.io" "/home/u/site.github.io/index.js" = true.
Proof. by vm_compute. Qed.

(** ** [dependencyUsed] *)

Lemma some_true {A} (callback : A → outcome bool) arr :
  some callback arr = Returns true → ∃ x, x ∈ arr ∧ callback x = Returns true.
Proof.
  induction arr as [|x arr IH]; simpl; [done|].
  destruct (callback x) as [[|]| |] eqn:Hx; simpl; try done.
  - intros _. exists x. split; [left|done].
  - intros H. destruct (IH H) as (y & Hy & Hcb). exists y. split; [by right|done].
Qed.

Lemma some_cons {A} (callback : A → outcome bool) x arr :
  some callback (x :: arr) =
  callback x ≫= λ b : bool, if b then Returns true else some callback arr.
Proof. reflexivity. Qed.

Lemma mentions_spec content dependency :
  mentions content dependency = true ↔
  ∃ pat, pat ∈ patterns dependency ∧ Js.includes content pat = true.
Proof.
  unfold mentions. rewrite existsb_exists.
  split; intros (pat & Hin & Hinc); exists pat; by rewrite ?list_elem_of_In in *.
Qed.

Section UsageFacts.
Variable fs : FileSystem.

Lemma usedIn_read dependency f c :
  readFileSync fs f = Some c →
  usedIn fs dependency f =
    if presumedUsed dependency then Returns true
    else Returns (mentions c dependency).
Proof. intros Hc. unfold usedIn. by rewrite Hc. Qed.

(** What the loop computes on files that can all be read. *)
Lemma some_usedIn dependency files :
  presumedUsed dependency = false → readable fs files →
  some (usedIn fs dependency) files =
    Returns (existsb (λ f, from_option (λ c, mentions c dependency) false
                                       (readFileSync fs f)) files).
Proof.
  intros Hp. induction files as [|f files IH]; intros Hr; [done|].
  destruct (Hr f) as [c Hc]; [left|].
  rewrite some_cons, (usedIn_read dependency f c Hc), Hp.
  cbn [existsb]. rewrite Hc. cbn [mbind outcome_bind from_option].
  destruct (mentions c dependency); [done|].
  apply IH. intros g Hg. apply Hr. by right.
Qed.

Lemma existsb_referenced dependency files :
  existsb (λ f, from_option (λ c, mentions c dependency) false
                            (readFileSync fs f)) files = true
  ↔ referenced fs files dependency.
Proof.
  rewrite existsb_exists. unfold referenced. split.
  - intros (f & Hin & Hm). destruct (readFileSync fs f) as [c|] eqn:Hc; [|done].
    simpl in Hm. apply mentions_spec in Hm as (pat & ? & ?).
    exists f, c, pat. by rewrite list_elem_of_In.
  - intros (f & c & pat & Hin & Hc & Hpat & Hinc). exists f.
    rewrite <- list_elem_of_In. split; [done|]. rewrite Hc. simpl.
    apply mentions_spec. eauto.
Qed.

Lemma some_usedIn_true dependency files :
  presumedUsed dependency = false →
  some (usedIn fs dependency) files = Returns true →
  referenced fs files dependency.
Proof.
  intros Hp H. apply some_true in H as (f & Hin & Hu).
  unfold usedIn in Hu. destruct (readFileSync fs f) as [c|] eqn:Hc; [|done].
  rewrite Hp in Hu. injection Hu as Hm.
  apply mentions_spec in Hm as (pat & ? & ?). by exists f, c, pat.
Qed.

(** A presumed dependency is reported used as soon as one file is
    collected and read. *)
Lemma presumed_used_first_file dependency depth f files v c :
  presumedUsed dependency = true →
  getFiles fs depth (cwd fs) ∅ = Some (f :: files, v) →
  readFileSync fs f = Some c →
  dependencyUsed fs depth dependency = Returns true.
Proof.
  intros Hp Hg Hc. unfold dependencyUsed.
  by rewrite Hg, some_cons, (usedIn_read dependency f c Hc), Hp.
Qed.

End UsageFacts.

(** C2 fails on the code: the test of the exclusion list and of the
    [@types/] prefix sits inside the callback of [files.some], so with no
    collected file the callback never runs and the answer is [false]. *)
Theorem dependencyUsed_presumed_no_file :
  presumedUsed "typescript" = true
  ∧ presumedUsed "@types/node" = true
  ∧ fst <$> getFiles bareFs 2 (cwd bareFs) ∅ = Some []
  ∧ dependencyUsed bareFs 2 "typescript" = Returns false
  ∧ dependencyUsed bareFs 2 "@types/node" = Returns false.
Proof. by vm_compute. Qed.

(** C7.  For a name that is neither excluded nor prefixed [@types/], the
    walk being given enough depth: [dependencyUsed] returns [true] only if
    some collected file's text contains one of the seven literals; when every
    collected file can be read it returns a boolean, and [true] exactly in
    that case.  A file with [import 'lodash'] makes [lodash] used, a file with
    only [import 'lodash-es'] does not. *)
Theorem dependencyUsed_matches (fs : FileSystem) (D : gset string) :
  listable_within fs D →
  ∀ depth dependency,
    todo D ∅ < depth → presumedUsed dependency = false →
    ∃ files visited',
      getFiles fs depth (cwd fs) ∅ = Some (files, visited')
      ∧ (dependencyUsed fs depth dependency = Returns true →
         referenced fs files dependency)
      ∧ (readable fs files →
         (dependencyUsed fs depth dependency = Returns true
          ↔ referenced fs files dependency)
         ∧ (dependencyUsed fs depth dependency = Returns false
            ↔ ¬ referenced fs files dependency))
      ∧ dependencyUsed (oneFileFs "import 'lodash'") 3 "lodash" = Returns true
      ∧ dependencyUsed (oneFileFs "import 'lodash-es'") 3 "lodash" = Returns false.
Proof.
  intros HD depth dependency Hlt Hp.
  destruct (getFiles_total fs D HD depth (cwd fs) ∅ Hlt) as (files & v' & Hrun & _).
  exists files, v'. unfold dependencyUsed. rewrite Hrun.
  split_and!; [done| |  |by vm_compute..].
  - by apply some_usedIn_true.
  - intros Hr. rewrite (some_usedIn fs dependency files Hp Hr).
    rewrite <- existsb_referenced.
    destruct (existsb _ files); split; split; try done; by intros [].
Qed.

Lemma dependencyUsed_matches_witness :
  ∃ files visited',
    getFiles loopFs 13 (cwd loopFs) ∅ = Some (files, visited')
    ∧ (dependencyUsed loopFs 13 "left-pad" = Returns true →
       referenced loopFs files "left-pad")
    ∧ (readable loopFs files →
       (dependencyUsed loopFs 13 "left-pad" = Returns true
        ↔ referenced loopFs files "left-pad")
       ∧ (dependencyUsed loopFs 13 "left-pad" = Returns false
          ↔ ¬ referenced loopFs files "left-pad"))
    ∧ dependencyUsed (oneFileFs "import 'lodash'") 3 "lodash" = Returns true
    ∧ dependencyUsed (oneFileFs "import 'lodash-es'") 3 "lodash" = Returns false.
Proof.
  apply (dependencyUsed_matches loopFs (list_to_set loopTable.*1)
           (tableFs_listable loopTable "/proj") 13 "left-pad").
  - vm_compute. lia.
  - reflexivity.
Defined.

(** ** The unused computation *)

Lemma unusedAmong_filter fs packageJSON depth deps :
  ∀ l, unusedAmong fs packageJSON depth deps = Returns l →
    l = filter (λ dep, dependencyUsed fs depth dep = Returns false
                       ∧ scriptUsed packageJSON dep = false) deps.
Proof.
  induction deps as [|dep deps IH]; intros l; simpl; [by intros [= <-]|].
  destruct (dependencyUsed fs depth dep) as [used| |] eqn:Hu; simpl; [|done..].
  destruct (unusedAmong fs packageJSON depth deps) as [rest| |]; simpl; [|done..].
  intros [= <-]. rewrite filter_cons, <- (IH rest eq_refl), Hu.
  destruct (decide _) as [[[= ->] ->]|Hd]; [done|].
  destruct used, (scriptUsed packageJSON dep); simpl; try done.
  by destruct Hd.
Qed.

Lemma dependencyUsed_unreferenced fs depth dependency files v :
  getFiles fs depth (cwd fs) ∅ = Some (files, v) →
  presumedUsed dependency = false → readable fs files →
  ¬ referenced fs files dependency →
  dependencyUsed fs depth dependency = Returns false.
Proof.
  intros Hg Hp Hr Hn. unfold dependencyUsed.
  rewrite Hg, (some_usedIn fs dependency files Hp Hr).
  rewrite <- existsb_referenced in Hn. by destruct (existsb _ files).
Qed.

(** C9.  The candidates are the keys of [dependencies] followed by the keys
    of [devDependencies], a name declared in both being listed twice; the
    unused computation is a filter of that list, so it keeps its order; for
    the manifest with [a] in [dependencies] and [b] in [devDependencies], no
    collected file referring to them and no script mentioning them, the
    result is [a] then [b]. *)
Theorem unused_in_manifest_order (fs : FileSystem) (depth : nat) :
  (∀ packageJSON,
     allDeps packageJSON =
       Object_keys (orEmpty (dependencies packageJSON))
       ++ Object_keys (orEmpty (devDependencies packageJSON)))
  ∧ allDeps manifestTwice = ["x"; "x"]
  ∧ (∀ packageJSON l,
       unusedAmong fs packageJSON depth (allDeps packageJSON) = Returns l →
       l = filter (λ dep, dependencyUsed fs depth dep = Returns false
                          ∧ scriptUsed packageJSON dep = false)
                  (allDeps packageJSON))
  ∧ (∀ (D : gset string) (sc : option JsObject),
       listable_within fs D → todo D ∅ < depth →
       (∀ files v, getFiles fs depth (cwd fs) ∅ = Some (files, v) →
          readable fs files
          ∧ ¬ referenced fs files "a" ∧ ¬ referenced fs files "b") →
       scriptUsed (manifestABwith sc) "a" = false →
       scriptUsed (manifestABwith sc) "b" = false →
       allDeps (manifestABwith sc) = ["a"; "b"]
       ∧ unusedAmong fs (manifestABwith sc) depth (allDeps (manifestABwith sc))
         = Returns ["a"; "b"]).
Proof.
  split_and!; [done|done|by intros; apply unusedAmong_filter|].
  intros D sc HD Hlt Hfiles Ha Hb. split; [done|].
  destruct (getFiles_total fs D HD depth (cwd fs) ∅ Hlt) as (files & v & Hrun & _).
  destruct (Hfiles files v Hrun) as (Hr & Hna & Hnb).
  change (allDeps (manifestABwith sc)) with ["a"; "b"]. cbn [unusedAmong].
  rewrite (dependencyUsed_unreferenced fs depth "a" files v Hrun eq_refl Hr Hna).
  rewrite (dependencyUsed_unreferenced fs depth "b" files v Hrun eq_refl Hr Hnb).
  cbn [mbind outcome_bind]. by rewrite Ha, Hb.
Qed.

Lemma unused_in_manifest_order_witness :
  allDeps (manifestABwith (Some [("build", "tsc")])) = ["a"; "b"]
  ∧ unusedAmong loopFs (manifestABwith (Some [("build", "tsc")])) 13
      (allDeps (manifestABwith (Some [("build", "tsc")])))
    = Returns ["a"; "b"].
Proof.
  destruct (unused_in_manifest_order loopFs 13) as (_ & _ & _ & Hab).
  apply (Hab (list_to_set loopTable.*1) (Some [("build", "tsc")])).
  - apply (tableFs_listable loopTable "/proj").
  - vm_compute. lia.
  - intros files v Hg. vm_compute in Hg. injection Hg as <- _.
    split_and!.
    + intros f Hf. apply list_elem_of_In in Hf.
      simpl in Hf. destruct Hf as [<-|[<-|[]]]; by eexists.
    + rewrite <- existsb_referenced. by vm_compute.
    + rewrite <- existsb_referenced. by vm_compute.
  - reflexivity.
  - reflexivity.
Defined.

(** ** [remove] and the callback of the prompt *)

Lemma at_index_listed arr n : at_index arr (Z.of_nat n - 1) = listed arr n.
Proof.
  unfold at_index. destruct n as [|k]; [done|].
  case_match eqn:Hneg; [apply Z.ltb_lt in Hneg; lia|].
  simpl listed. f_equal. lia.
Qed.

Lemma newSet_defined_go (seen arr : list (option string)) :
  omap id (foldl (λ seen x, if bool_decide (x ∈ seen) then seen else seen ++ [x])
                 seen arr)
  = foldl (λ seen x, if bool_decide (x ∈ seen) then seen else seen ++ [x])
          (omap id seen) (omap id arr).
Proof.
  revert seen. induction arr as [|[s|] arr IH]; intros seen; simpl; [done|..].
  - rewrite IH. f_equal.
    assert (Some s ∈ seen ↔ s ∈ omap id seen) as Hiff.
    { rewrite list_elem_of_omap. split; [by exists (Some s)|].
      by intros ([x|] & ? & ?); simplify_eq/=. }
    do 2 case_bool_decide; try tauto.
    by rewrite omap_app.
  - rewrite IH. f_equal. case_bool_decide; [done|].
    by rewrite omap_app, app_nil_r.
Qed.

(** The names of a selection are the first occurrences of the names its
    entries hold. *)
Lemma newSet_defined (arr : list (option string)) :
  omap id (newSet arr) = newSet (omap id arr).
Proof. apply (newSet_defined_go [] arr). Qed.

Section RemoverFacts.
Variable now : nat → Z.
Variable centis : N → N.

Lemma remove_nil global w : remove now centis [] global w = w.
Proof. reflexivity. Qed.

(** One call of [remove] never has two commands in flight, in whatever
    order the event loop is asked to end commands. *)
Lemma uninstallNext_inflight deps global start index w :
  length (inflight (uninstallNext now centis deps global start index w))
  ≤ S (length (inflight w)).
Proof.
  unfold uninstallNext. case_match; simpl; [lia|].
  rewrite length_app. simpl. lia.
Qed.

Lemma complete_serial i err stderr w :
  length (inflight w) ≤ 1 →
  length (inflight (complete now centis i err stderr w)) ≤ 1.
Proof.
  intros Hw. unfold complete.
  destruct (inflight w !! i) as [p|] eqn:Hp; [|done].
  destruct (inflight w) as [|q [|]] eqn:Hq; simpl in *; [done| |lia].
  assert (i = 0) as -> by (apply lookup_lt_Some in Hp; simpl in Hp; lia).
  unfold onExit.
  etrans; [apply uninstallNext_inflight|]. destruct err; simpl; lia.
Qed.

Lemma remove_serial deps global w (steps : list (nat * bool * string)) :
  inflight w = [] →
  length (inflight (foldl (λ w s, complete now centis s.1.1 s.1.2 s.2 w)
                          (remove now centis deps global w) steps)) ≤ 1.
Proof.
  intros Hw.
  assert (length (inflight (remove now centis deps global w)) ≤ 1) as H0.
  { unfold remove. case_match; [rewrite Hw; simpl; lia|].
    etrans; [apply uninstallNext_inflight|]. simpl. rewrite Hw. simpl. lia. }
  revert H0. generalize (remove now centis deps global w). clear w Hw.
  induction steps as [|s steps IH]; intros w Hw; simpl; [done|].
  by apply IH, complete_serial.
Qed.

Lemma run_cons e ends w :
  run now centis (e :: ends) w = run now centis ends (complete now centis 0 e.1 e.2 w).
Proof. by destruct e. Qed.

(** The callback of the command of item [index], on a world where nothing
    else is in flight. *)
Lemma complete_item deps global start index dep e w :
  deps !! index = Some dep →
  inflight w = [ {| p_dependencies := deps; p_global := global;
                    p_startTime := start; p_index := index |} ] →
  complete now centis 0 e.1 e.2 w =
    uninstallNext now centis deps global start (S index)
      {| trace := trace w ++ response dep e; inflight := []; ticks := ticks w |}.
Proof.
  intros Hdep Hw. unfold complete. rewrite Hw. cbn [lookup list_lookup].
  unfold onExit. cbn [p_dependencies p_index p_global p_startTime].
  rewrite Hdep. unfold response, emit. by destruct e as [[] ?].
Qed.

(** The run of one call from the moment the command of [dep] is in
    flight: its response, then the remaining items, then the summary. *)
Lemma run_from deps global start :
  ∀ rest done dep e ends w,
    deps = done ++ dep :: rest →
    length ends = length rest →
    inflight w = [ {| p_dependencies := deps; p_global := global;
                      p_startTime := start; p_index := length done |} ] →
    run now centis (e :: ends) w =
      {| trace := trace w ++ response dep e ++ itemsEvents global rest ends
           ++ [ConsoleLog (summary centis (length deps) (now (ticks w) - start))];
         inflight := [];
         ticks := S (ticks w) |}.
Proof.
  induction rest as [|dep2 rest IH]; intros done dep e ends w Hdeps Hlen Hw;
    assert (deps !! length done = Some dep) as Hdep
      by (by rewrite Hdeps; apply list_lookup_middle);
    rewrite run_cons, (complete_item deps global start (length done) dep e w Hdep Hw);
    unfold uninstallNext.
  - destruct ends; [|done].
    rewrite (proj2 (Nat.leb_le _ _)) by (rewrite Hdeps, length_app; simpl; lia).
    simpl. by rewrite <- !app_assoc.
  - destruct ends as [|e2 ends]; [done|].
    assert (deps !! S (length done) = Some dep2) as Hdep2.
    { rewrite Hdeps, lookup_app_r by lia.
      by replace (S (length done) - length done) with 1 by lia. }
    rewrite (proj2 (Nat.leb_gt _ _)) by (rewrite Hdeps, length_app; simpl; lia).
    rewrite Hdep2. cbn [default from_option id].
    rewrite (IH (done ++ [dep]) dep2 e2 ends).
    + unfold itemsEvents, itemEvents. simpl. by rewrite <- !app_assoc.
    + by rewrite <- app_assoc.
    + simpl in Hlen. lia.
    + simpl. by rewrite length_app, Nat.add_1_r.
Qed.

End RemoverFacts.

Lemma omap_id_fmap {A B} (f : A → option B) (l : list A) :
  omap id (f <$> l) = omap f l.
Proof.
  induction l as [|x l IH]; [done|].
  rewrite fmap_cons. cbn [omap list_omap]. fold (omap id (f <$> l)).
  fold (omap f l). rewrite IH. by destruct (f x).
Qed.

Lemma toFixed2_shape (centis : N → N) (ms : Z) :
  (0 ≤ ms)%Z →
  ∃ q d1 d2 : N,
    (d1 < 10)%N ∧ (d2 < 10)%N
    ∧ toFixed2 centis ms = pretty q +:+ "." +:+ pretty d1 +:+ pretty d2.
Proof.
  intros Hms. unfold toFixed2.
  exists (centis (Z.abs_N ms) / 100)%N,
         ((centis (Z.abs_N ms) / 10) `mod` 10)%N,
         (centis (Z.abs_N ms) `mod` 10)%N.
  split_and!; [by apply N.mod_lt..|].
  by rewrite (proj2 (Z.ltb_ge _ _) Hms).
Qed.

(** One call of [remove] run to its end, for any rounding. *)
Lemma remove_run_all (now : nat → Z) (centis : N → N)
    (deps : list (option string)) (global : bool)
    (ends : list (bool * string)) (w : World) :
  1 ≤ length deps → length ends = length deps → inflight w = [] →
  run now centis ends (remove now centis deps global w) =
    {| trace := trace w ++ itemsEvents global deps ends
         ++ [ConsoleLog (summary centis (length deps)
                           (now (S (ticks w)) - now (ticks w)))];
       inflight := [];
       ticks := S (S (ticks w)) |}.
Proof.
  intros Hn Hlen Hw.
  destruct deps as [|dep rest]; [simpl in Hn; lia|].
  destruct ends as [|e ends]; [done|].
  unfold remove, uninstallNext. cbn [length Nat.eqb Nat.leb ticks trace inflight].
  rewrite (run_from now centis (dep :: rest) global (now (ticks w)) rest [] dep e ends);
    [|done|by simplify_eq/=|by rewrite Hw].
  cbn [trace ticks length]. unfold itemsEvents, itemEvents. simpl.
  by rewrite <- !app_assoc.
Qed.

Lemma roundHalfEven_near (a b : Z) :
  (0 < b)%Z →
  (Z.abs (2 * (b * roundHalfEven a b - a)) ≤ b)%Z
  ∧ ((0 ≤ a)%Z → (0 ≤ roundHalfEven a b)%Z).
Proof.
  intros Hb. unfold roundHalfEven.
  pose proof (Z.div_mod a b ltac:(lia)) as Hdm.
  pose proof (Z.mod_pos_bound a b Hb) as Hr.
  assert ((0 ≤ a)%Z → (0 ≤ a / b)%Z) as Hq by (intros; by apply Z.div_pos).
  destruct (2 * (a `mod` b) <? b)%Z eqn:H1;
    [apply Z.ltb_lt in H1|apply Z.ltb_ge in H1; destruct (b <? 2 * (a `mod` b))%Z eqn:H2;
       [apply Z.ltb_lt in H2|apply Z.ltb_ge in H2; destruct (Z.even (a / b))]];
    split; lia.
Qed.

(** The hundredths printed are the milliseconds divided by ten and rounded
    to a nearest integer, for every time below [2 ^ 53] ms. *)
Lemma nearestCentis_near (m : N) :
  (Z.of_N m < 2 ^ 53)%Z →
  (Z.abs (10 * Z.of_N (nearestCentis m) - Z.of_N m) ≤ 5)%Z.
Proof.
  intros Hm. destruct (decide (m = 0%N)) as [->|Hne]; [by vm_compute|].
  unfold nearestCentis, doubleOfMillis.
  set (ms := Z.of_N m) in *. assert (0 < ms)%Z as Hpos by lia.
  set (L := Z.log2 ms).
  assert (0 ≤ L ≤ 52)%Z as HL.
  { split; [apply Z.log2_nonneg|]. apply Z.lt_succ_r.
    by apply (Z.log2_lt_pow2 ms 53). }
  set (k := if (ms * 512 <? 1000 * 2 ^ L)%Z then (62 - L)%Z else (61 - L)%Z).
  assert (9 ≤ k)%Z as Hk by (unfold k; case_match; lia).
  rewrite (proj2 (Z.leb_le 0 k)) by lia.
  assert (512 ≤ 2 ^ k)%Z as HP.
  { change 512%Z with (2 ^ 9)%Z. apply Z.pow_le_mono_r; lia. }
  replace (2 ^ (k + 1))%Z with (2 * 2 ^ k)%Z by (rewrite Z.pow_add_r by lia; lia).
  generalize dependent (2 ^ k)%Z. intros P HP.
  destruct (roundHalfEven_near (ms * P) 1000 ltac:(lia)) as [Hnear Hnn].
  specialize (Hnn ltac:(lia)).
  generalize dependent (roundHalfEven (ms * P) 1000). intros M Hnear Hnn.
  pose proof (Z.mul_div_le (200 * M + P) (2 * P) ltac:(lia)) as Hlo.
  pose proof (Z.mul_succ_div_gt (200 * M + P) (2 * P) ltac:(lia)) as Hhi.
  assert (0 ≤ (200 * M + P) / (2 * P))%Z as Hn0 by (apply Z.div_pos; lia).
  rewrite Z2N.id by done.
  generalize dependent ((200 * M + P) / (2 * P))%Z. intros n Hlo Hhi Hn0.
  nia.
Qed.

(** C8, as the code has it.  [remove] on [n ≥ 1] names, nothing else being
    in flight and each command ending in turn: the trace gains, item after
    item in list order, the command and then the error call (a failed
    command: [console.error] with the name and the command's stderr) or the
    confirmation (a successful one), a failure not stopping the items after
    it; the summary comes last, with the full count [n] and the difference of
    the two clock readings in seconds, printed with two decimals: the
    hundredths [c] printed are the milliseconds divided by ten and rounded to
    a nearest integer, and the time carries a minus sign exactly when the
    clock went back between the readings. *)
Theorem remove_reports_all (now : nat → Z)
    (deps : list (option string)) (global : bool)
    (ends : list (bool * string)) (w : World) :
  1 ≤ length deps → length ends = length deps → inflight w = [] →
  (Z.abs (now (S (ticks w)) - now (ticks w)) < 2 ^ 53)%Z →
  ∃ c : N,
    (Z.abs (10 * Z.of_N c - Z.abs (now (S (ticks w)) - now (ticks w))) ≤ 5)%Z
    ∧ run now nearestCentis ends (remove now nearestCentis deps global w) =
        {| trace := trace w ++ itemsEvents global deps ends
             ++ [ConsoleLog
                   (Js.LF +:+ "Removed " +:+ pretty (length deps) +:+ " dependenc"
                    +:+ (if bool_decide (length deps = 1) then "y" else "ies")
                    +:+ " in "
                    +:+ ((if (now (S (ticks w)) - now (ticks w) <? 0)%Z
                          then "-" else "")
                         +:+ pretty (c / 100)%N +:+ "."
                         +:+ pretty ((c / 10) `mod` 10)%N +:+ pretty (c `mod` 10)%N)
                    +:+ " seconds.")];
           inflight := [];
           ticks := S (S (ticks w)) |}.
Proof.
  intros Hn Hlen Hw Hrange.
  exists (nearestCentis (Z.abs_N (now (S (ticks w)) - now (ticks w)))). split.
  - rewrite <- (N2Z.inj_abs_N (now (S (ticks w)) - now (ticks w))).
    apply nearestCentis_near. by rewrite N2Z.inj_abs_N.
  - rewrite remove_run_all by done. unfold summary, toFixed2, plural.
    do 4 f_equal. destruct (length deps) as [|[|n]]; [lia|done..].
Qed.

Lemma remove_reports_all_witness :
  ∃ c : N,
    (Z.abs (10 * Z.of_N c - Z.abs (clock1234 1 - clock1234 0)) ≤ 5)%Z
    ∧ run clock1234 nearestCentis [(false, ""); (true, "E404"); (false, "")]
          (remove clock1234 nearestCentis [Some "a"; Some "b"; Some "c"] false world0) =
        {| trace := trace world0
             ++ itemsEvents false [Some "a"; Some "b"; Some "c"]
                  [(false, ""); (true, "E404"); (false, "")]
             ++ [ConsoleLog
                   (Js.LF +:+ "Removed " +:+ pretty 3 +:+ " dependenc"
                    +:+ (if bool_decide (3 = 1) then "y" else "ies")
                    +:+ " in "
                    +:+ ((if (clock1234 1 - clock1234 0 <? 0)%Z then "-" else "")
                         +:+ pretty (c / 100)%N +:+ "."
                         +:+ pretty ((c / 10) `mod` 10)%N +:+ pretty (c `mod` 10)%N)
                    +:+ " seconds.")];
           inflight := [];
           ticks := 2 |}.
Proof.
  apply (remove_reports_all clock1234 [Some "a"; Some "b"; Some "c"] false
           [(false, ""); (true, "E404"); (false, "")] world0).
  - simpl. lia.
  - reflexivity.
  - reflexivity.
  - by vm_compute.
Defined.

(** C8, as stated, fails when the clock is set back while the commands run:
    with the second reading half a second before the first, the summary
    reports a negative time. *)
Lemma summary_negative_time :
  trace (run clockBack nearestCentis [(false, "")]
           (remove clockBack nearestCentis [Some "a"] false world0))
  = [ Exec "npm uninstall a "; ClearLine; CursorTo; ConsoleLog "- Removed a";
      ConsoleLog (Js.LF +:+ "Removed 1 dependency in -0.50 seconds.") ].
Proof. by vm_compute. Qed.

(** A name that holds a format directive: the trace keeps the two arguments
    of the error call apart, as the code passes them. *)
Example failed_item_with_directive :
  trace (run clock1234 nearestCentis [(true, "E404")]
           (remove clock1234 nearestCentis [Some "a%sb"] false world0))
  = [ Exec "npm uninstall a%sb ";
      ConsoleErrorWith (Js.LF +:+ "Error uninstalling a%sb:") "E404";
      ConsoleLog (Js.LF +:+ "Removed 1 dependency in 1.23 seconds.") ].
Proof. by vm_compute. Qed.

(** The summary of the three-item run on the sample clock, as printed. *)
Example summary_three_items :
  last (trace (run clock1234 nearestCentis [(false, ""); (true, "E404"); (false, "")]
                 (remove clock1234 nearestCentis [Some "a"; Some "b"; Some "c"]
                    false world0)))
  = Some (ConsoleLog (Js.LF +:+ "Removed 3 dependencies in 1.23 seconds.")).
Proof. by vm_compute. Qed.

(** The double nearest to a time that ends in five thousandths lies above or
    below it, and the hundredths follow. *)
Example nearestCentis_ties :
  (nearestCentis <$> [0; 4; 5; 15; 25; 45; 1005; 1234; 8575])%N
  = [0; 0; 1; 1; 3; 4; 100; 123; 857]%N.
Proof. by vm_compute. Qed.

(** C10.  [remove] on an empty list leaves the world as it is: no command
    is spawned and nothing is printed, the summary included. *)
Theorem remove_empty_list (now : nat → Z) (centis : N → N) (global : bool) (w : World) :
  remove now centis [] global w = w
  ∧ added w (remove now centis [] global w) = []
  ∧ inflight (remove now centis [] global w) = inflight w.
Proof.
  rewrite remove_nil. split_and!; [done| |done].
  unfold added. by rewrite drop_all.
Qed.

(** C5 fails on the code.  One call of [remove] is sequential
    ([remove_serial]), but [main] calls it for the local names and at once
    for the global names: the first command of each call is spawned before
    any command has ended, here for the answer [all] and for [1,2] on one
    unused and one global package, and the global call can finish while the
    local command is still in flight. *)
Theorem two_commands_in_flight (now : nat → Z) (centis : N → N) :
  trace (onAnswer now centis ["a"] ["g"] "all" world0)
    = [Exec "npm uninstall a "; Exec "npm uninstall g -g"]
  ∧ length (inflight (onAnswer now centis ["a"] ["g"] "all" world0)) = 2
  ∧ trace (onAnswer now centis ["a"] ["g"] "1,2" world0)
    = [Exec "npm uninstall a "; Exec "npm uninstall g -g"]
  ∧ length (inflight (onAnswer now centis ["a"] ["g"] "1,2" world0)) = 2
  ∧ trace (complete now centis 1 false ""
             (onAnswer now centis ["a"] ["g"] "all" world0))
    = [Exec "npm uninstall a "; Exec "npm uninstall g -g";
       ClearLine; CursorTo; ConsoleLog "- Removed g";
       ConsoleLog (summary centis 1 (now 2 - now 1))]
  ∧ length (inflight (complete now centis 1 false ""
                        (onAnswer now centis ["a"] ["g"] "all" world0))) = 1.
Proof. split_and!; reflexivity. Qed.

(** C1, as the code has it.  For an answer that is not [all] the callback
    removes the selection, local names first; the names of the selection are
    the first occurrences of the entries at the 1-based positions given by
    the single digits of the answer, a digit with no entry giving no name.
    On a listing of five entries, [2,4] selects the second and the fourth,
    and the names selected by [2,10] are the second and the first. *)
Theorem selection_by_digits (now : nat → Z) (centis : N → N)
    (unused global : list string) (answer : string) (w : World) :
  (Js.toLowerCase answer ≠ "all" →
   onAnswer now centis unused global answer w =
     remove now centis
       (filter (λ dep, inGlobal global dep = true) (selectedDeps unused global answer))
       true
       (remove now centis
          (filter (λ dep, inGlobal global dep = false)
                  (selectedDeps unused global answer))
          false w))
  ∧ omap id (selectedDeps unused global answer)
    = newSet (omap (listed (unused ++ global)) (matchDigits answer))
  ∧ (∀ a b c d e, unused ++ global = [a; b; c; d; e] →
       selectedDeps unused global "2,4" = newSet [Some b; Some d]
       ∧ omap id (selectedDeps unused global "2,10") = newSet [b; a]).
Proof.
  split_and!.
  - intros Hall. unfold onAnswer. by rewrite bool_decide_eq_false_2.
  - unfold selectedDeps. rewrite newSet_defined, omap_id_fmap.
    f_equal. apply list_omap_ext, Forall_Forall2_diag, Forall_forall.
    intros n _. apply at_index_listed.
  - intros a b c d e Hlist. unfold selectedDeps.
    rewrite newSet_defined, Hlist. done.
Qed.

Lemma selection_by_digits_witness :
  onAnswer clock1234 halfUp ["a"; "b"; "c"] ["d"; "e"] "2,4" world0 =
    remove clock1234 halfUp
      (filter (λ dep, inGlobal ["d"; "e"] dep = true)
              (selectedDeps ["a"; "b"; "c"] ["d"; "e"] "2,4"))
      true
      (remove clock1234 halfUp
         (filter (λ dep, inGlobal ["d"; "e"] dep = false)
                 (selectedDeps ["a"; "b"; "c"] ["d"; "e"] "2,4"))
         false world0)
  ∧ selectedDeps ["a"; "b"; "c"] ["d"; "e"] "2,4" = newSet [Some "b"; Some "d"]
  ∧ omap id (selectedDeps ["a"; "b"; "c"] ["d"; "e"] "2,10") = newSet ["b"; "a"].
Proof.
  destruct (selection_by_digits clock1234 halfUp ["a"; "b"; "c"] ["d"; "e"] "2,4"
              world0) as (Hcall & _ & Hfive).
  split.
  - apply Hcall. vm_compute. discriminate.
  - apply (Hfive "a" "b" "c" "d" "e"). reflexivity.
Defined.

(** C1, as stated, fails: the digits of [2,10] are 2, 1 and 0, so the first
    entry is selected as well, and the digit 0 puts [undefined] in the
    selection. *)
Lemma selection_2_10 :
  selectedDeps ["a"; "b"; "c"; "d"; "e"] [] "2,10" = [Some "b"; Some "a"; None].
Proof. reflexivity. Qed.

(** A digit with no entry is not dropped: [undefined] goes to the local
    call of [remove], which spawns a command for it. *)
Lemma out_of_range_digit_uninstalls (now : nat → Z) (centis : N → N) :
  trace (onAnswer now centis ["a"] [] "9" world0) = [Exec "npm uninstall undefined "].
Proof. reflexivity. Qed.

(** C3, as the code has it.  An answer that is not [all] and holds no
    decimal digit leaves the world as it is: no command is spawned, and
    nothing is printed (the code has no message for it). *)
Theorem no_digit_answer_is_silent (now : nat → Z) (centis : N → N)
    (unused global : list string) (answer : string) (w : World) :
  Js.toLowerCase answer ≠ "all" → matchDigits answer = [] →
  onAnswer now centis unused global answer w = w
  ∧ added w (onAnswer now centis unused global answer w) = [].
Proof.
  intros Hall Hd.
  assert (onAnswer now centis unused global answer w = w) as ->.
  { unfold onAnswer, selectedDeps.
    by rewrite bool_decide_eq_false_2, Hd by done. }
  split; [done|]. unfold added. by rewrite drop_all.
Qed.

Lemma no_digit_answer_is_silent_witness :
  onAnswer clock1234 halfUp ["a"] ["g"] "foo" world0 = world0
  ∧ added world0 (onAnswer clock1234 halfUp ["a"] ["g"] "foo" world0) = [].
Proof.
  apply (no_digit_answer_is_silent clock1234 halfUp ["a"] ["g"] "foo" world0).
  - vm_compute. discriminate.
  - reflexivity.
Defined.

(** C3, as stated, fails: on the answer [foo], which is neither [all] nor a
    selection, no message is printed. *)
Lemma no_invalid_input_message :
  bool_decide (Js.toLowerCase "foo" = "all") = false
  ∧ selectedDeps ["a"] ["g"] "foo" = []
  ∧ existsb isMessage
      (added world0 (onAnswer clock1234 halfUp ["a"] ["g"] "foo" world0)) = false.
Proof. split_and!; reflexivity. Qed.

(** * Further properties of the code *)

(** ** Substring search *)

Lemma prefix_self_app p c : String.prefix p (p +:+ c) = true.
Proof.
  induction p as [|a p IH]; unfold_append; [apply prefix_nil_l|].
  by apply prefix_cons.
Qed.

Lemma includes_spec s sub :
  Js.includes s sub = true ↔ ∃ a b, s = a +:+ sub +:+ b.
Proof.
  split.
  - induction s as [|c s IH]; cbn [Js.includes]; rewrite orb_true_iff.
    + intros [H|H]; [|done]. apply prefix_nil_r in H as ->. by exists EmptyString, EmptyString.
    + intros [H|H].
      * apply prefix_split in H as [b ->]. by exists EmptyString, b.
      * destruct (IH H) as (a & b & ->). by exists (String c a), b.
  - intros (a & b & ->). induction a as [|c a IH]; unfold_append.
    + destruct (sub +:+ b) eqn:E; cbn [Js.includes]; rewrite <- E;
        by rewrite prefix_self_app.
    + cbn [Js.includes]. by rewrite IH, orb_true_r.
Qed.

Lemma includes_trans s t u :
  Js.includes s t = true → Js.includes t u = true → Js.includes s u = true.
Proof.
  rewrite !includes_spec. intros (a & b & ->) (a' & b' & ->).
  exists (a +:+ a'), (b' +:+ b). by rewrite <- !append_assoc.
Qed.

(** ** [scriptUsed] *)

(** X1.  [scriptUsed] answers [true] exactly when the text of some script of
    the manifest contains the name as a contiguous part; with no [scripts]
    field, or an empty one, it answers [false] for every name. *)
Theorem scriptUsed_spec (packageJSON : PackageJSON) (dependency : string) :
  (scriptUsed packageJSON dependency = true ↔
   ∃ name script a b,
     (name, script) ∈ orEmpty (scripts packageJSON)
     ∧ script = a +:+ dependency +:+ b)
  ∧ (∀ deps devDeps dep,
       scriptUsed {| scripts := None; dependencies := deps;
                     devDependencies := devDeps |} dep = false
       ∧ scriptUsed {| scripts := Some []; dependencies := deps;
                       devDependencies := devDeps |} dep = false).
Proof.
  split; [|done]. unfold scriptUsed, Object_values.
  rewrite existsb_exists. split.
  - intros (script & Hin & Hinc). apply list_elem_of_In, list_elem_of_fmap in Hin
      as ([name script'] & -> & Hin).
    apply includes_spec in Hinc as (a & b & Hs). by exists name, script', a, b.
  - intros (name & script & a & b & Hin & Hs). exists script. split.
    + apply list_elem_of_In, list_elem_of_fmap. by exists (name, script).
    + apply includes_spec. by exists a, b.
Qed.

(** X2.  The search of [scriptUsed] does not look at word boundaries: a name
    that is part of another name is reported used whenever that other name
    is. *)
Theorem scriptUsed_part_of_name (packageJSON : PackageJSON) (part whole : string) :
  Js.includes whole part = true →
  scriptUsed packageJSON whole = true →
  scriptUsed packageJSON part = true.
Proof.
  intros Hpart. unfold scriptUsed. rewrite !existsb_exists.
  intros (script & Hin & Hinc). exists script. split; [done|].
  by apply (includes_trans script whole part).
Qed.

Lemma scriptUsed_part_of_name_witness :
  scriptUsed {| scripts := Some [("build", "react-dom build")];
                dependencies := None; devDependencies := None |} "react" = true.
Proof.
  apply (scriptUsed_part_of_name _ "react" "react-dom"); reflexivity.
Defined.

(** ** [getFiles]: the files it returns *)

Lemma getFiles_grows fs depth :
  ∀ dir v files v', getFiles fs depth dir v = Some (files, v') →
    v ⊆ v' ∧ ∀ p, realpathSync fs dir = Some p → p ≠ EmptyString → p ∈ v'.
Proof.
  assert (∀ recur realPath,
    (∀ p v sub v', recur p v = Some (sub, v') → v ⊆ v') →
    ∀ entries results v res v',
      scan fs recur realPath entries results v = Some (res, v') → v ⊆ v') as Hscan.
  { intros recur realPath Hrec entries.
    induction entries as [|file rest IH]; intros results v res v'; simpl.
    { by intros [= _ <-]. }
    destruct (lstatSync fs _) as [stat|]; [|by apply IH].
    destruct (isSymbolicLink stat); [by apply IH|].
    destruct (isDirectory stat); [|by destruct (Js.mem _ _); apply IH].
    destruct (skipped _); [by apply IH|].
    destruct (recur _ v) as [[sub v1]|] eqn:Hr; [|done].
    intros H. apply IH in H. apply Hrec in Hr. set_solver. }
  induction depth as [|depth IH]; intros dir v files v'; [done|]. simpl.
  destruct (realpathSync fs dir) as [realPath|]; [|by intros [= _ <-]].
  case_bool_decide as He; simpl.
  { intros [= _ <-]. split; [done|]. by intros ? [= <-]. }
  case_bool_decide as Hv; simpl.
  { intros [= _ <-]. split; [done|]. by intros ? [= <-]. }
  destruct (readdirSync fs realPath) as [entries|].
  - intros H. apply Hscan in H; [|intros p w sub w' Hp; by apply (IH p w sub w')].
    split; [set_solver|]. intros ? [= <-] _. set_solver.
  - intros [= _ <-]. split; [set_solver|]. intros ? [= <-] _. set_solver.
Qed.

Section Walk.
Variable fs : FileSystem.

Lemma finished_mono files files' (v v' : gset string) x :
  files ⊆ files' → v ⊆ v' → finished fs files v x → finished fs files' v' x.
Proof. intros Hf Hv [H1 H2]. split; [by auto|]. intros q Hq. by apply Hv, H2. Qed.

Lemma scan_closed recur realPath :
  (∀ p v sub v', recur p v = Some (sub, v') →
     v ⊆ v'
     ∧ (∀ q, realpathSync fs p = Some q → q ≠ EmptyString → q ∈ v')
     ∧ ∀ x, x ∈ v' → x ∈ v ∨ finished fs sub v' x) →
  ∀ entries results v res v',
    scan fs recur realPath entries results v = Some (res, v') →
    v ⊆ v' ∧ results ⊆ res
    ∧ (∀ name, name ∈ entries →
         (lstatSync fs (Path.join realPath name) = Some OtherEntry →
          Js.mem (Path.extname name) extensions = true →
          Path.join realPath name ∈ res)
         ∧ (∀ q, lstatSync fs (Path.join realPath name) = Some Directory →
                 skipped (Path.join realPath name) = false →
                 realpathSync fs (Path.join realPath name) = Some q →
                 q ≠ EmptyString → q ∈ v'))
    ∧ ∀ x, x ∈ v' → x ∈ v ∨ finished fs res v' x.
Proof.
  intros Hrec entries.
  induction entries as [|file rest IH]; intros results v res v'; simpl.
  { intros [= <- <-]. split_and!; [done|done| |by left].
    intros name Hn. by apply elem_of_nil in Hn. }
  destruct (lstatSync fs (Path.join realPath file)) as [stat|] eqn:Hst.
  2:{ intros H. destruct (IH _ _ _ _ H) as (Hv & Hres & Hent & Hfin).
      split_and!; [done..| |done].
      intros name [->|Hn]%elem_of_cons; [by rewrite Hst|by apply Hent]. }
  destruct stat; simpl.
  - intros H. destruct (IH _ _ _ _ H) as (Hv & Hres & Hent & Hfin).
    split_and!; [done..| |done].
    intros name [->|Hn]%elem_of_cons; [by rewrite Hst|by apply Hent].
  - destruct (skipped (Path.join realPath file)) eqn:Hsk.
    { intros H. destruct (IH _ _ _ _ H) as (Hv & Hres & Hent & Hfin).
      split_and!; [done..| |done].
      intros name [->|Hn]%elem_of_cons; [|by apply Hent].
      rewrite Hst, Hsk. by split. }
    destruct (recur (Path.join realPath file) v) as [[sub v1]|] eqn:Hr; [|done].
    destruct (Hrec _ _ _ _ Hr) as (Hv1 & Hmark & Hfin1).
    intros H. destruct (IH _ _ _ _ H) as (Hv & Hres & Hent & Hfin).
    split_and!.
    + set_solver.
    + set_solver.
    + intros name [->|Hn]%elem_of_cons; [|by apply Hent].
      rewrite Hst. split; [done|]. intros q _ _ Hq Hne. apply Hv. by apply Hmark.
    + intros x Hx. destruct (Hfin x Hx) as [Hx1|Hx1]; [|by right].
      destruct (Hfin1 x Hx1) as [?|Hf]; [by left|right].
      apply (finished_mono sub res v1 v'); [set_solver|done|done].
  - destruct (Js.mem (Path.extname file) extensions) eqn:Hext.
    + intros H. destruct (IH _ _ _ _ H) as (Hv & Hres & Hent & Hfin).
      split_and!; [done|set_solver| |done].
      intros name [->|Hn]%elem_of_cons; [|by apply Hent].
      rewrite Hst. split; [|done]. intros _ _. set_solver.
    + intros H. destruct (IH _ _ _ _ H) as (Hv & Hres & Hent & Hfin).
      split_and!; [done..| |done].
      intros name [->|Hn]%elem_of_cons; [|by apply Hent].
      rewrite Hst, Hext. by split.
Qed.

Lemma getFiles_closed depth :
  ∀ dir v files v', getFiles fs depth dir v = Some (files, v') →
    ∀ x, x ∈ v' → x ∈ v ∨ finished fs files v' x.
Proof.
  induction depth as [|depth IH]; intros dir v files v'; [done|]. simpl.
  destruct (realpathSync fs dir) as [realPath|]; [|by intros [= _ <-]; left].
  destruct (_ || _); [by intros [= _ <-]; left|].
  destruct (readdirSync fs realPath) as [entries|] eqn:Hl.
  - intros H. apply scan_closed in H as (Hv & _ & Hent & Hfin).
    2:{ intros p w sub w' Hp. destruct (getFiles_grows fs depth p w sub w' Hp).
        split_and!; [done..|]. by apply (IH p w sub w'). }
    intros x Hx. destruct (Hfin x Hx) as [[?| ->%elem_of_singleton]%elem_of_union|?];
      [by left| |by right].
    right. split.
    + intros f (es & name & Hes & Hn & -> & Hst & Hext).
      rewrite Hl in Hes. injection Hes as <-. by apply Hent.
    + intros q (es & name & Hes & Hn & Hst & Hsk & Hq & Hne).
      rewrite Hl in Hes. injection Hes as <-. by apply (Hent name Hn).
  - intros [= <- <-] x [?| ->%elem_of_singleton]%elem_of_union; [by left|right].
    split.
    + intros f (es & name & Hes & _). by rewrite Hl in Hes.
    + intros q (es & name & Hes & _). by rewrite Hl in Hes.
Qed.

(** The results are source files of directories reached from the root. *)
Lemma scan_sound recur root realPath all :
  rtc (child fs) root realPath → readdirSync fs realPath = Some all →
  (∀ p v sub v', (∀ r, realpathSync fs p = Some r → r ≠ EmptyString →
                       rtc (child fs) root r) →
     recur p v = Some (sub, v') →
     Forall (λ f, ∃ x, rtc (child fs) root x ∧ sourceFile fs x f) sub) →
  ∀ entries results v res v',
    entries ⊆ all →
    Forall (λ f, ∃ x, rtc (child fs) root x ∧ sourceFile fs x f) results →
    scan fs recur realPath entries results v = Some (res, v') →
    Forall (λ f, ∃ x, rtc (child fs) root x ∧ sourceFile fs x f) res.
Proof.
  intros HR Hall Hrec entries.
  induction entries as [|file rest IH]; intros results v res v' Hsub HQ; simpl.
  { by intros [= <- _]. }
  assert (file ∈ all) as Hin by (apply Hsub; left).
  assert (rest ⊆ all) as Hrest by (intros x Hx; apply Hsub; by right).
  destruct (lstatSync fs (Path.join realPath file)) as [stat|] eqn:Hst; [|by eauto].
  destruct stat; simpl; [by eauto|..].
  - destruct (skipped _) eqn:Hsk; [by eauto|].
    destruct (recur (Path.join realPath file) v) as [[sub v1]|] eqn:Hr; [|done].
    apply IH; [done|]. apply Forall_app. split; [done|].
    eapply Hrec; [|done]. intros r Hrp Hne.
    eapply rtc_r; [done|]. by exists all, file.
  - destruct (Js.mem _ _) eqn:Hext; [|by eauto].
    apply IH; [done|]. apply Forall_app. split; [done|].
    apply Forall_singleton. exists realPath. split; [done|]. by exists all, file.
Qed.

Lemma getFiles_sound root depth :
  ∀ dir v files v',
    (∀ r, realpathSync fs dir = Some r → r ≠ EmptyString → rtc (child fs) root r) →
    getFiles fs depth dir v = Some (files, v') →
    Forall (λ f, ∃ x, rtc (child fs) root x ∧ sourceFile fs x f) files.
Proof.
  induction depth as [|depth IH]; intros dir v files v' HR; [done|]. simpl.
  destruct (realpathSync fs dir) as [realPath|]; [|by intros [= <- _]].
  case_bool_decide as He; simpl; [by intros [= <- _]|].
  destruct (bool_decide _); simpl; [by intros [= <- _]|].
  destruct (readdirSync fs realPath) as [entries|] eqn:Hl; [|by intros [= <- _]].
  apply (scan_sound (getFiles fs depth) root realPath entries); auto.
Qed.

End Walk.

(** X3.  Started with no directory visited, [getFiles] returns exactly the
    source files (entries that are neither links nor directories and carry
    one of the six extensions) of the directories reached from the resolved
    root through sub-directories that are no links and whose path passes the
    test of line 51: nothing else is returned and none of them is missed. *)
Theorem getFiles_exact (fs : FileSystem) (D : gset string) :
  listable_within fs D →
  ∀ dir root depth,
    realpathSync fs dir = Some root → root ≠ EmptyString → todo D ∅ < depth →
    ∃ files visited',
      getFiles fs depth dir ∅ = Some (files, visited')
      ∧ ∀ f, f ∈ files ↔ ∃ x, rtc (child fs) root x ∧ sourceFile fs x f.
Proof.
  intros HD dir root depth Hroot Hne Hlt.
  destruct (getFiles_total fs D HD depth dir ∅ Hlt) as (files & v' & Hrun & _).
  exists files, v'. split; [done|]. intros f. split.
  - intros Hf. pose proof (getFiles_sound fs root depth dir ∅ files v') as Hs.
    rewrite Forall_forall in Hs. apply Hs; [|done..].
    intros r Hr _. rewrite Hroot in Hr. by injection Hr as <-.
  - intros (x & Hx & Hsrc).
    destruct (getFiles_grows fs depth dir ∅ files v' Hrun) as [_ Hmark].
    assert (∀ y, y ∈ v' → finished fs files v' y) as Hfin.
    { intros y Hy. destruct (getFiles_closed fs depth dir ∅ files v' Hrun y Hy)
        as [Hy0|]; [set_solver|done]. }
    assert (x ∈ v') as Hxv.
    { revert Hx. apply (rtc_ind_r (R := child fs) (λ z, z ∈ v') root).
      - by apply Hmark.
      - intros y z _ Hyz Hy. by apply (Hfin y). }
    by apply (Hfin x Hxv).
Qed.

Lemma getFiles_exact_witness :
  ∃ files visited',
    getFiles loopFs 13 "/proj/src/back" ∅ = Some (files, visited')
    ∧ ∀ f, f ∈ files ↔ ∃ x, rtc (child loopFs) "/proj" x ∧ sourceFile loopFs x f.
Proof.
  apply (getFiles_exact loopFs (list_to_set loopTable.*1)
           (tableFs_listable loopTable "/proj") "/proj/src/back" "/proj" 13 eq_refl).
  - discriminate.
  - vm_compute. lia.
Defined.

(** ** [dependencyUsed]: reading the files *)

Lemma some_throws fs dependency (clean : list string) f rest :
  presumedUsed dependency = false →
  readable fs clean → ¬ referenced fs clean dependency →
  readFileSync fs f = None →
  some (usedIn fs dependency) (clean ++ f :: rest) = Throws.
Proof.
  intros Hp. induction clean as [|g clean IH]; intros Hr Hn Hf.
  - rewrite app_nil_l, some_cons. unfold usedIn. by rewrite Hf.
  - destruct (Hr g) as [c Hc]; [left|].
    rewrite <- app_comm_cons, some_cons, (usedIn_read fs dependency g c Hc), Hp.
    assert (mentions c dependency = false) as ->.
    { apply not_true_is_false. intros Hm. apply Hn.
      apply mentions_spec in Hm as (pat & ? & ?). exists g, c, pat.
      split_and!; [left|done..]. }
    cbn [mbind outcome_bind]. apply IH; [|  |done].
    + intros h Hh. apply Hr. by right.
    + intros (h & c' & pat & Hh & ?). apply Hn. exists h, c', pat.
      split; [by right|done].
Qed.

(** X4.  [dependencyUsed] lets the exception of [readFileSync] escape: it
    throws when the first collected file cannot be read, whatever the name
    (an excluded one included), and for a name that is not presumed used when
    a file that cannot be read comes before any file that refers to it. *)
Theorem dependencyUsed_throws (fs : FileSystem) (depth : nat)
    (dependency : string) (clean : list string) (f : string)
    (rest : list string) (v : gset string) :
  getFiles fs depth (cwd fs) ∅ = Some (clean ++ f :: rest, v) →
  readFileSync fs f = None →
  (clean = [] → dependencyUsed fs depth dependency = Throws)
  ∧ (presumedUsed dependency = false →
     readable fs clean → ¬ referenced fs clean dependency →
     dependencyUsed fs depth dependency = Throws).
Proof.
  intros Hg Hf. unfold dependencyUsed. rewrite Hg. split.
  - intros ->. rewrite app_nil_l, some_cons. unfold usedIn. by rewrite Hf.
  - intros Hp Hr Hn. by apply some_throws.
Qed.

Lemma dependencyUsed_throws_witness :
  dependencyUsed lockedFs 3 "typescript" = Throws
  ∧ dependencyUsed lockedFs 3 "lodash" = Throws.
Proof.
  split.
  - destruct (dependencyUsed_throws lockedFs 3 "typescript" [] "/app/main.js" []
                {[ "/app" ]} eq_refl eq_refl) as [Hfirst _].
    by apply Hfirst.
  - destruct (dependencyUsed_throws lockedFs 3 "lodash" [] "/app/main.js" []
                {[ "/app" ]} eq_refl eq_refl) as [_ Hlater].
    apply Hlater.
    + reflexivity.
    + by intros f Hf%elem_of_nil.
    + by intros (f & c & pat & Hf%elem_of_nil & _).
Defined.

(** X5.  For a name of the exclusion list or with the [@types/] prefix,
    [dependencyUsed] answers [true] as soon as one file is collected and the
    first one can be read, without looking at what any file contains. *)
Theorem dependencyUsed_presumed (fs : FileSystem) (depth : nat)
    (dependency f : string) (files : list string) (v : gset string) (c : string) :
  presumedUsed dependency = true →
  getFiles fs depth (cwd fs) ∅ = Some (f :: files, v) →
  readFileSync fs f = Some c →
  dependencyUsed fs depth dependency = Returns true.
Proof. apply presumed_used_first_file. Qed.

Lemma dependencyUsed_presumed_witness :
  dependencyUsed (oneFileFs "export {}") 3 "@types/node" = Returns true.
Proof.
  apply (dependencyUsed_presumed (oneFileFs "export {}") 3 "@types/node"
           "/app/main.js" [] {[ "/app" ]} "export {}"); reflexivity.
Defined.

(** ** The unused computation and [main] *)

Lemma dependencyUsed_no_files fs depth v dependency :
  getFiles fs depth (cwd fs) ∅ = Some ([], v) →
  dependencyUsed fs depth dependency = Returns false.
Proof. intros Hg. unfold dependencyUsed. by rewrite Hg. Qed.

(** X6.  In a project where the walk collects no file, every declared name
    that no script mentions is reported unused, the names of the exclusion
    list and the [@types/] packages included. *)
Theorem unused_without_sources (fs : FileSystem) (packageJSON : PackageJSON)
    (depth : nat) (v : gset string) (deps : list string) :
  getFiles fs depth (cwd fs) ∅ = Some ([], v) →
  unusedAmong fs packageJSON depth deps
  = Returns (filter (λ dep, scriptUsed packageJSON dep = false) deps).
Proof.
  intros Hg. induction deps as [|dep deps IH]; [done|].
  cbn [unusedAmong]. rewrite (dependencyUsed_no_files fs depth v dep Hg), IH.
  cbn [mbind outcome_bind negb andb]. rewrite filter_cons.
  destruct (scriptUsed packageJSON dep); by case_decide.
Qed.

Lemma unused_without_sources_witness :
  unusedAmong bareFs manifestTools 2 (allDeps manifestTools)
  = Returns ["lodash"; "typescript"; "@types/node"].
Proof.
  etrans.
  - apply (unused_without_sources bareFs manifestTools 2 {[ "/bare" ]}).
    reflexivity.
  - reflexivity.
Defined.

(** X7.  [main] does not catch what [dependencyUsed] throws: with at least
    one declared name and a first collected file that cannot be read, [main]
    ends with the exception, before anything is listed or removed. *)
Theorem main_throws (now : nat → Z) (centis : N → N) (fs : FileSystem)
    (packageJSON : PackageJSON) (npm_ls : option PackageJSON) (depth : nat)
    (answer : string) (w : World) (dep : string) (deps : list string)
    (f : string) (files : list string) (v : gset string) :
  allDeps packageJSON = dep :: deps →
  getFiles fs depth (cwd fs) ∅ = Some (f :: files, v) →
  readFileSync fs f = None →
  main now centis fs packageJSON npm_ls depth answer w = Throws.
Proof.
  intros Hdeps Hg Hf. unfold main. rewrite Hdeps. cbn [unusedAmong].
  destruct (dependencyUsed_throws fs depth dep [] f files v Hg Hf) as [-> _]; done.
Qed.

Lemma main_throws_witness :
  main clock1234 halfUp lockedFs manifestAB None 3 "all" world0 = Throws.
Proof.
  apply (main_throws clock1234 halfUp lockedFs manifestAB None 3 "all" world0
           "a" ["b"] "/app/main.js" [] {[ "/app" ]}); reflexivity.
Defined.

(** X8.  A failure of the global listing is not fatal: [main] goes on as it
    does when no package is installed globally, after one error line. *)
Theorem main_global_failure (now : nat → Z) (centis : N → N) (fs : FileSystem)
    (packageJSON : PackageJSON) (depth : nat) (answer : string) (w : World) :
  main now centis fs packageJSON None depth answer w
  = main now centis fs packageJSON (Some noGlobals) depth answer
      (emit [ConsoleError "Error retrieving global packages:"] w).
Proof. reflexivity. Qed.



(** ** The listing and the selection *)

(** X10.  The listing numbers the entries from 1, the unused names first and
    then the global ones, each global one tagged. *)
Theorem listing_numbered (unused global : list string) :
  length (listing unused global) = length unused + length global
  ∧ (∀ i dep, unused !! i = Some dep →
       listing unused global !! i
       = Some (ConsoleLog (pretty (S i) +:+ ". " +:+ dep)))
  ∧ (∀ j dep, global !! j = Some dep →
       listing unused global !! (length unused + j)
       = Some (ConsoleLog (pretty (S (length unused + j)) +:+ ". " +:+ dep
                           +:+ " (global)"))).
Proof.
  unfold listing. split_and!.
  - by rewrite length_imap, length_app, length_fmap.
  - intros i dep Hi. rewrite list_lookup_imap, lookup_app_l by by eapply lookup_lt_Some.
    rewrite Hi. simpl. by rewrite Nat.add_1_r.
  - intros j dep Hj. rewrite list_lookup_imap, lookup_app_r by lia.
    replace (length unused + j - length unused) with j by lia.
    rewrite list_lookup_fmap, Hj. simpl. by rewrite Nat.add_1_r.
Qed.

Lemma newSet_go_elem {A} `{EqDecision A} (seen arr : list A) x :
  x ∈ foldl (λ seen x, if bool_decide (x ∈ seen) then seen else seen ++ [x]) seen arr
  ↔ x ∈ seen ∨ x ∈ arr.
Proof.
  revert seen. induction arr as [|y arr IH]; intros seen; simpl.
  - set_solver.
  - rewrite IH. case_bool_decide; set_solver.
Qed.

Lemma newSet_go_NoDup {A} `{EqDecision A} (seen arr : list A) :
  NoDup seen →
  NoDup (foldl (λ seen x, if bool_decide (x ∈ seen) then seen else seen ++ [x])
               seen arr).
Proof.
  revert seen. induction arr as [|y arr IH]; intros seen Hs; simpl; [done|].
  apply IH. case_bool_decide; [done|].
  apply NoDup_app. split_and!; [done| |apply NoDup_singleton].
  intros x Hx ->%list_elem_of_singleton. done.
Qed.

Lemma matchDigits_lt answer : Forall (λ n, n < 10) (matchDigits answer).
Proof.
  induction answer as [|c answer IH]; simpl; [done|].
  unfold digitValue.
  destruct ((48 <=? nat_of_ascii c) && (nat_of_ascii c <=? 57)) eqn:Hc; [|done].
  apply andb_true_iff in Hc as [H1 H2].
  apply Nat.leb_le in H1, H2. constructor; [lia|done].
Qed.

(** X11.  Whatever the answer, the selection holds no value twice: a name is
    handed to [remove] once even when its digit is typed several times or it
    is listed at two positions. *)
Theorem selection_NoDup (unused global : list string) (answer : string) :
  NoDup (selectedDeps unused global answer)
  ∧ NoDup (filter (λ dep, inGlobal global dep = false)
                  (selectedDeps unused global answer))
  ∧ NoDup (filter (λ dep, inGlobal global dep = true)
                  (selectedDeps unused global answer)).
Proof.
  assert (NoDup (selectedDeps unused global answer)) as Hn
    by apply newSet_go_NoDup, NoDup_nil_2.
  split_and!; [done|by apply NoDup_filter..].
Qed.

(** X12.  A name gets into the selection only from one of the first nine
    positions of the listing: an answer made of digits never selects the
    tenth entry or a later one, and never a name that is not listed. *)
Theorem selection_first_nine (unused global : list string) (answer name : string) :
  Some name ∈ selectedDeps unused global answer →
  ∃ k, k < 9 ∧ (unused ++ global) !! k = Some name.
Proof.
  unfold selectedDeps, newSet. rewrite newSet_go_elem.
  intros [Hin|Hin]; [by apply elem_of_nil in Hin|].
  apply list_elem_of_fmap in Hin as (n & Hn & Hin).
  pose proof (matchDigits_lt answer) as Hlt. rewrite Forall_forall in Hlt.
  apply Hlt in Hin. rewrite at_index_listed in Hn.
  destruct n as [|k]; [done|]. exists k. split; [lia|done].
Qed.

Lemma selection_first_nine_witness :
  ∃ k, k < 9
       ∧ (["a"; "b"; "c"; "d"; "e"; "f"; "g"; "h"; "i"; "j"; "k"] ++ []) !! k
         = Some "a".
Proof.
  apply (selection_first_nine ["a"; "b"; "c"; "d"; "e"; "f"; "g"; "h"; "i"; "j"; "k"]
           [] "11" "a").
  vm_compute. left.
Defined.

(** X13.  A digit that has no entry in the listing (0, or one beyond its
    length) is not dropped: [undefined] is part of the selection, on the
    local side, and the command built for it names the package
    [undefined]. *)
Theorem selection_undefined (unused global : list string) (answer : string) (n : nat) :
  n ∈ matchDigits answer → listed (unused ++ global) n = None →
  None ∈ filter (λ dep, inGlobal global dep = false)
                (selectedDeps unused global answer)
  ∧ uninstallCommand None false = "npm uninstall undefined ".
Proof.
  intros Hn Hnone. split; [|done].
  apply list_elem_of_filter. split; [done|].
  unfold selectedDeps, newSet. rewrite newSet_go_elem. right.
  apply list_elem_of_fmap. exists n. by rewrite at_index_listed.
Qed.

Lemma selection_undefined_witness :
  None ∈ filter (λ dep, inGlobal ["g"] dep = false)
                (selectedDeps ["a"] ["g"] "1, 3")
  ∧ uninstallCommand None false = "npm uninstall undefined ".
Proof.
  apply (selection_undefined ["a"] ["g"] "1, 3" 3).
  - vm_compute. right. left.
  - reflexivity.
Defined.

Lemma digitAnswer_digits k :
  k < 9 → matchDigits (digitAnswer (S k)) = [S k]
          ∧ Js.toLowerCase (digitAnswer (S k)) ≠ "all".
Proof.
  intros Hk. do 9 (destruct k as [|k]; [by split|]). lia.
Qed.

(** X14.  The two calls of [remove] are told apart by the name alone: when
    the one entry selected carries a name that is also a global package, the
    command is the global uninstall only, even if the entry selected is the
    local, unused one. *)
Theorem selected_name_also_global (now : nat → Z) (centis : N → N)
    (unused global : list string) (k : nat) (name : string) (w : World) :
  k < 9 → (unused ++ global) !! k = Some name → name ∈ global →
  onAnswer now centis unused global (digitAnswer (S k)) w
  = remove now centis [Some name] true w.
Proof.
  intros Hk Hname Hg. destruct (digitAnswer_digits k Hk) as [Hd Hall].
  unfold onAnswer, selectedDeps. rewrite bool_decide_eq_false_2 by done.
  rewrite Hd. cbn [fmap list_fmap]. rewrite at_index_listed. cbn [listed].
  rewrite Hname. unfold newSet. cbn [foldl].
  rewrite bool_decide_eq_false_2 by apply not_elem_of_nil. cbn [app].
  assert (inGlobal global (Some name) = true) as Hin
    by (by apply bool_decide_eq_true_2).
  rewrite !filter_cons, !filter_nil, Hin.
  rewrite (decide_True (P := true = true)) by done.
  rewrite (decide_False (P := true = false)) by done.
  by rewrite remove_nil.
Qed.

Lemma selected_name_also_global_witness :
  onAnswer clock1234 halfUp ["typescript"] ["npm"; "typescript"] (digitAnswer 1) world0
  = remove clock1234 halfUp [Some "typescript"] true world0.
Proof.
  apply (selected_name_also_global clock1234 halfUp ["typescript"]
           ["npm"; "typescript"] 0 "typescript" world0).
  - lia.
  - reflexivity.
  - right. left.
Defined.

(** ** [remove]: one call *)

(** X15.  One call of [remove], started with nothing in flight, never has
    two commands in flight, in whatever order the event loop is asked to end
    commands and whatever their outcomes. *)
Theorem remove_one_in_flight (now : nat → Z) (centis : N → N)
    (deps : list (option string)) (global : bool) (w : World)
    (steps : list (nat * bool * string)) :
  inflight w = [] →
  length (inflight (foldl (λ w s, complete now centis s.1.1 s.1.2 s.2 w)
                          (remove now centis deps global w) steps)) ≤ 1.
Proof. apply remove_serial. Qed.

Lemma remove_one_in_flight_witness :
  length (inflight (foldl (λ w s, complete clock1234 halfUp s.1.1 s.1.2 s.2 w)
                          (remove clock1234 halfUp [Some "a"; Some "b"] false world0)
                          [(1, false, ""); (0, true, "E404")])) ≤ 1.
Proof.
  apply (remove_one_in_flight clock1234 halfUp [Some "a"; Some "b"] false world0
           [(1, false, ""); (0, true, "E404")]).
  reflexivity.
Defined.

Lemma run_app now centis ends ends' w :
  run now centis (ends ++ ends') w = run now centis ends' (run now centis ends w).
Proof.
  revert w. induction ends as [|[err stderr] ends IH]; intros w; [done|].
  simpl. apply IH.
Qed.

Lemma itemsEvents_snoc global deps dep ends e :
  length deps = length ends →
  itemsEvents global (deps ++ [dep]) (ends ++ [e])
  = itemsEvents global deps ends ++ itemEvents global dep e.
Proof.
  intros Hlen. unfold itemsEvents.
  rewrite zip_with_app by done. rewrite concat_app. simpl. by rewrite app_nil_r.
Qed.

(** X16.  The next command is spawned only from the callback of the one
    before: after [k] commands of a call on [n > k] names have ended, the
    trace holds the first [k] items in list order and the command of item
    [k], which alone is in flight; the summary is not printed while a
    command is pending, so a command that never ends holds the rest back.
    An item that failed is in the trace as the call of [console.error] with
    its two arguments, the text with the name and the command's stderr, and
    not as the line Node formats from them. *)
Theorem remove_waits (now : nat → Z) (centis : N → N)
    (deps : list (option string)) (global : bool)
    (ends : list (bool * string)) (w : World) :
  inflight w = [] → length ends < length deps →
  run now centis ends (remove now centis deps global w) =
    {| trace := trace w ++ itemsEvents global (take (length ends) deps) ends
         ++ [Exec (uninstallCommand (default None (deps !! length ends)) global)];
       inflight := [ {| p_dependencies := deps; p_global := global;
                        p_startTime := now (ticks w);
                        p_index := length ends |} ];
       ticks := S (ticks w) |}.
Proof.
  intros Hw. induction ends as [|e ends IH] using rev_ind; intros Hlen.
  - destruct deps as [|dep deps]; [simpl in Hlen; lia|].
    unfold remove, uninstallNext. simpl. by rewrite Hw.
  - rewrite length_app in Hlen. simpl in Hlen.
    rewrite run_app, IH by lia.
    destruct (lookup_lt_is_Some_2 deps (length ends)) as [dep Hdep]; [lia|].
    destruct (lookup_lt_is_Some_2 deps (S (length ends))) as [dep2 Hdep2]; [lia|].
    rewrite run_cons. cbn [run].
    rewrite (complete_item now centis deps global (now (ticks w)) (length ends) dep e)
      by done.
    unfold uninstallNext. cbn [trace inflight ticks].
    rewrite (proj2 (Nat.leb_gt _ _)) by lia.
    rewrite length_app, Nat.add_1_r, Hdep, Hdep2. cbn [default from_option id app].
    rewrite (take_S_r deps (length ends) dep Hdep).
    rewrite itemsEvents_snoc by (rewrite length_take; lia).
    unfold itemEvents. f_equal.
    by rewrite <- !app_assoc, <- app_comm_cons.
Qed.

Lemma remove_waits_witness :
  run clock1234 halfUp [(true, "E404")]
      (remove clock1234 halfUp [Some "a"; Some "b"; Some "c"] false world0) =
    {| trace := trace world0
         ++ itemsEvents false (take 1 [Some "a"; Some "b"; Some "c"]) [(true, "E404")]
         ++ [Exec (uninstallCommand
                     (default None ([Some "a"; Some "b"; Some "c"] !! 1)) false)];
       inflight := [ {| p_dependencies := [Some "a"; Some "b"; Some "c"];
                        p_global := false; p_startTime := clock1234 0;
                        p_index := 1 |} ];
       ticks := 1 |}.
Proof.
  apply (remove_waits clock1234 halfUp [Some "a"; Some "b"; Some "c"] false
           [(true, "E404")] world0).
  - reflexivity.
  - simpl. lia.
Defined.

(** ** The build script *)

Lemma append_length s t :
  String.length (s +:+ t) = String.length s + String.length t.
Proof. induction s as [|c s IH]; unfold_append; simpl; [done|by rewrite IH]. Qed.

Lemma append_cancel_r s s' t t' :
  String.length t = String.length t' → s +:+ t = s' +:+ t' → s = s' ∧ t = t'.
Proof.
  intros Hlen. revert s'. induction s as [|c s IH]; intros [|c' s']; unfold_append.
  - done.
  - intros ->. simpl in Hlen. rewrite append_length in Hlen. lia.
  - intros <-. simpl in Hlen. rewrite append_length in Hlen. lia.
  - intros [= -> H]. by destruct (IH s' H) as [-> ->].
Qed.

Lemma endsWith_spec s suffix :
  endsWith s suffix = true ↔ ∃ stem, s = stem +:+ suffix.
Proof.
  split.
  - induction s as [|c s IH]; cbn [endsWith]; rewrite orb_true_iff.
    + intros [->%bool_decide_eq_true|]; [by exists EmptyString|done].
    + intros [->%bool_decide_eq_true|H]; [by exists EmptyString|].
      destruct (IH H) as [stem ->]. by exists (String c stem).
  - intros [stem ->]. induction stem as [|c stem IH]; unfold_append.
    + destruct suffix; cbn [endsWith]; by rewrite bool_decide_eq_true_2.
    + cbn [endsWith]. by rewrite IH, orb_true_r.
Qed.

Lemma replaceJsSuffix_stem stem : replaceJsSuffix (stem +:+ ".js") = stem +:+ ".cjs".
Proof.
  induction stem as [|c stem IH]; [done|]. unfold_append. cbn [replaceJsSuffix].
  rewrite bool_decide_eq_false_2, IH; [done|].
  intros H. apply (f_equal String.length) in H. simpl in H.
  rewrite append_length in H. simpl in H. lia.
Qed.

Lemma cjs_not_js stem : endsWith (stem +:+ ".cjs") ".js" = false.
Proof.
  apply not_true_is_false. intros [stem' H]%endsWith_spec.
  change (stem +:+ ".cjs") with (stem +:+ "." +:+ "cjs") in H.
  rewrite append_assoc in H. by apply append_cancel_r in H as [_ ?].
Qed.

(** What the script needs to know of a name that ends with [.js]. *)
Lemma js_name file :
  endsWith file ".js" = true →
  endsWith (replaceJsSuffix file) ".js" = false
  ∧ replaceJsSuffix file ≠ file
  ∧ ∀ other, endsWith other ".js" = true →
             replaceJsSuffix other = replaceJsSuffix file → other = file.
Proof.
  intros [stem ->]%endsWith_spec. rewrite replaceJsSuffix_stem.
  split_and!; [apply cjs_not_js| |].
  - intros H. pose proof (cjs_not_js stem) as Hn. rewrite H in Hn.
    by rewrite (proj2 (endsWith_spec _ _)) in Hn by by exists stem.
  - intros other [stem' ->]%endsWith_spec. rewrite replaceJsSuffix_stem.
    intros H. by apply append_cancel_r in H as [-> _].
Qed.

Lemma renameOutputs_spec names :
  ∀ dir : gmap string string,
    NoDup names →
    (∀ n, n ∈ names → endsWith n ".js" = true → is_Some (dir !! n)) →
    ∃ dir', renameOutputs names dir = Some dir'
      ∧ (∀ k, k ∈ names → endsWith k ".js" = true → dir' !! k = None)
      ∧ (∀ src, src ∈ names → endsWith src ".js" = true →
           dir' !! replaceJsSuffix src = dir !! src)
      ∧ (∀ k, (k ∈ names → endsWith k ".js" = false) →
           (∀ src, src ∈ names → endsWith src ".js" = true →
              replaceJsSuffix src ≠ k) →
           dir' !! k = dir !! k).
Proof.
  induction names as [|file rest IH]; intros dir Hnd Hex.
  { exists dir. split_and!; [done| | |done]; by intros ? ?%elem_of_nil. }
  apply NoDup_cons in Hnd as [Hfile Hnd]. cbn [renameOutputs].
  destruct (endsWith file ".js") eqn:Hjs.
  - destruct (Hex file) as [c Hc]; [left|done|].
    destruct (js_name file Hjs) as (Hcjs & Hne & Hinj).
    unfold renameSync. rewrite Hc.
    assert (∀ n, n ∈ rest → endsWith n ".js" = true →
              (<[replaceJsSuffix file := c]> (delete file dir)) !! n = dir !! n) as Hkeep.
    { intros n Hn Hnjs. rewrite lookup_insert_ne, lookup_delete_ne; [done|..];
        intros <-; [done|]. by rewrite Hcjs in Hnjs. }
    destruct (IH (<[replaceJsSuffix file := c]> (delete file dir)) Hnd)
      as (dir' & Hrun & Ha & Hb & Hc').
    { intros n Hn Hnjs. rewrite Hkeep by done. apply Hex; [by right|done]. }
    exists dir'. split_and!; [done|..].
    + intros k [->|Hk]%elem_of_cons Hkjs; [|by apply Ha].
      rewrite Hc'; [by rewrite lookup_insert_ne, lookup_delete_eq| |].
      * by intros ?.
      * intros src Hsrc Hsjs <-. destruct (js_name src Hsjs) as [Hn _]. congruence.
    + intros src [->|Hsrc]%elem_of_cons Hsjs.
      * rewrite Hc'; [by rewrite lookup_insert_eq| |].
        -- by intros _.
        -- intros src Hsrc Hsjs' Heq. apply Hinj in Heq; [|done]. by subst.
      * by rewrite Hb, Hkeep.
    + intros k Hk Hsrc. rewrite Hc'.
      * rewrite lookup_insert_ne, lookup_delete_ne; [done|..].
        -- intros <-. specialize (Hk ltac:(left)). congruence.
        -- apply Hsrc; [left|done].
      * intros Hin. apply Hk. by right.
      * intros src Hin. apply Hsrc. by right.
  - destruct (IH dir Hnd) as (dir' & Hrun & Ha & Hb & Hc').
    { intros n Hn. apply Hex. by right. }
    exists dir'. split_and!; [done|..].
    + intros k [->|Hk]%elem_of_cons Hkjs; [congruence|by apply Ha].
    + intros src [->|Hsrc]%elem_of_cons Hsjs; [congruence|by apply Hb].
    + intros k Hk Hsrc. apply Hc'.
      * intros Hin. apply Hk. by right.
      * intros src Hin. apply Hsrc. by right.
Qed.

Lemma renameOutputs_nothing names (dir : gmap string string) :
  (∀ n, n ∈ names → endsWith n ".js" = false) → renameOutputs names dir = Some dir.
Proof.
  induction names as [|file rest IH]; intros Hn; [done|]. cbn [renameOutputs].
  rewrite Hn by left. apply IH. intros n Hin. apply Hn. by right.
Qed.

(** X17.  On a listing of the directory the build script renames every
    entry and does not throw: afterwards no name ends with [.js], the content
    of each [x.js] is found under [x.cjs] (a file [x.cjs] that was already
    there is replaced), and every other entry is as it was. *)
Theorem renameOutputs_result (names : list string) (dir : gmap string string) :
  listingOf names dir →
  ∃ dir', renameOutputs names dir = Some dir'
    ∧ (∀ k, endsWith k ".js" = true → dir' !! k = None)
    ∧ (∀ stem c, dir !! (stem +:+ ".js") = Some c →
         dir' !! (stem +:+ ".cjs") = Some c)
    ∧ (∀ k, endsWith k ".js" = false →
         (∀ stem, k = stem +:+ ".cjs" → dir !! (stem +:+ ".js") = None) →
         dir' !! k = dir !! k).
Proof.
  intros [Hnd Hdom].
  destruct (renameOutputs_spec names dir Hnd) as (dir' & Hrun & Ha & Hb & Hc).
  { intros n Hn _. by apply Hdom. }
  exists dir'. split_and!; [done|..].
  - intros k Hjs. destruct (decide (k ∈ names)) as [Hin|Hout]; [by apply Ha|].
    rewrite Hc; [|done|].
    + apply eq_None_not_Some. intros Hs. by apply Hout, Hdom.
    + intros src _ Hsjs <-. destruct (js_name src Hsjs) as [Hn _]. congruence.
  - intros stem c Hstem. rewrite <- replaceJsSuffix_stem, <- Hstem.
    apply Hb; [by apply Hdom; eexists|]. apply endsWith_spec. by exists stem.
  - intros k Hk Hfree. apply Hc; [done|].
    intros src Hsrc [stem ->]%endsWith_spec. rewrite replaceJsSuffix_stem.
    intros <-. apply Hdom in Hsrc as [c Hc']. by rewrite (Hfree stem) in Hc'.
Qed.

Lemma libDir_listing :
  listingOf ["index.js"; "index.cjs"; "index.d.ts"; "util.js"] libDir.
Proof.
  split.
  - apply (bool_decide_unpack _). by vm_compute.
  - intros name. rewrite <- elem_of_dom. unfold libDir.
    rewrite !dom_insert_L, dom_singleton_L. set_solver.
Qed.

Lemma renameOutputs_result_witness :
  ∃ dir', renameOutputs ["index.js"; "index.cjs"; "index.d.ts"; "util.js"] libDir
          = Some dir'
    ∧ (∀ k, endsWith k ".js" = true → dir' !! k = None)
    ∧ (∀ stem c, libDir !! (stem +:+ ".js") = Some c →
         dir' !! (stem +:+ ".cjs") = Some c)
    ∧ (∀ k, endsWith k ".js" = false →
         (∀ stem, k = stem +:+ ".cjs" → libDir !! (stem +:+ ".js") = None) →
         dir' !! k = libDir !! k).
Proof.
  apply (renameOutputs_result ["index.js"; "index.cjs"; "index.d.ts"; "util.js"] libDir).
  apply libDir_listing.
Defined.

(** X18.  Running the build script again changes nothing: after one run, on
    any listing of the directory, a second run renames no entry and does not
    throw. *)
Theorem renameOutputs_twice (names : list string) (dir : gmap string string) :
  listingOf names dir →
  ∃ dir', renameOutputs names dir = Some dir'
    ∧ ∀ names', listingOf names' dir' → renameOutputs names' dir' = Some dir'.
Proof.
  intros [Hnd Hdom].
  destruct (renameOutputs_spec names dir Hnd) as (dir' & Hrun & Ha & Hb & Hc).
  { intros n Hn _. by apply Hdom. }
  exists dir'. split; [done|]. intros names' [_ Hdom'].
  apply renameOutputs_nothing. intros n Hn. apply not_true_is_false. intros Hjs.
  apply Hdom' in Hn as [c Hn].
  destruct (decide (n ∈ names)) as [Hin|Hout]; [by rewrite Ha in Hn|].
  rewrite Hc in Hn; [|done|].
  - apply Hout, Hdom. by eexists.
  - intros src _ Hsjs <-. destruct (js_name src Hsjs) as [Hne _]. congruence.
Qed.

Lemma renameOutputs_twice_witness :
  ∃ dir', renameOutputs ["index.js"; "index.cjs"; "index.d.ts"; "util.js"] libDir
          = Some dir'
    ∧ ∀ names', listingOf names' dir' → renameOutputs names' dir' = Some dir'.
Proof.
  apply (renameOutputs_twice ["index.js"; "index.cjs"; "index.d.ts"; "util.js"] libDir).
  apply libDir_listing.
Defined.

(** ** The number printed and the digit typed *)

Lemma append_nil_r s : s +:+ EmptyString = s.
Proof. induction s as [|c s IH]; unfold_append; [done|by rewrite IH]. Qed.

Lemma listing_line (unused global : list string) k name :
  (unused ++ global) !! k = Some name →
  listing unused global !! k
  = Some (ConsoleLog (pretty (S k) +:+ ". " +:+ name
                      +:+ (if decide (k < length unused) then EmptyString
                           else " (global)"))).
Proof.
  intros Hk. unfold listing. rewrite list_lookup_imap, Nat.add_1_r.
  case_decide as Hlt.
  - rewrite lookup_app_l in Hk |- * by done. rewrite Hk. simpl.
    by rewrite append_nil_r.
  - rewrite lookup_app_r in Hk |- * by lia. by rewrite list_lookup_fmap, Hk.
Qed.

Lemma digitAnswer_pretty k : k < 9 → pretty (S k) = digitAnswer (S k).
Proof. intros Hk. do 9 (destruct k as [|k]; [by vm_compute|]). lia. Qed.

(** X19.  For each of the first nine entries the listing and the selection
    agree: the line printed for the entry starts with one digit, and the
    answer made of that digit selects this entry and nothing else. *)
Theorem listing_selection_agree (unused global : list string) (k : nat) (name : string) :
  k < 9 → (unused ++ global) !! k = Some name →
  listing unused global !! k
  = Some (ConsoleLog (digitAnswer (S k) +:+ ". " +:+ name
                      +:+ (if decide (k < length unused) then EmptyString
                           else " (global)")))
  ∧ selectedDeps unused global (digitAnswer (S k)) = [Some name].
Proof.
  intros Hk Hname. split.
  - rewrite <- digitAnswer_pretty by done. by apply listing_line.
  - destruct (digitAnswer_digits k Hk) as [Hd _]. unfold selectedDeps.
    rewrite Hd. cbn [fmap list_fmap]. rewrite at_index_listed. cbn [listed].
    by rewrite Hname.
Qed.

Lemma listing_selection_agree_witness :
  listing ["a"; "b"] ["g"] !! 2
  = Some (ConsoleLog (digitAnswer 3 +:+ ". " +:+ "g"
                      +:+ (if decide (2 < length ["a"; "b"]) then EmptyString
                           else " (global)")))
  ∧ selectedDeps ["a"; "b"] ["g"] (digitAnswer 3) = [Some "g"].
Proof.
  apply (listing_selection_agree ["a"; "b"] ["g"] 2 "g").
  - lia.
  - reflexivity.
Defined.

Example build_script_example :
  renameOutputs ["index.js"; "index.cjs"; "index.d.ts"; "util.js"] libDir
  = Some {[ "index.cjs" := "new code"; "index.d.ts" := "types";
            "util.cjs" := "helpers" ]}.
Proof. by vm_compute. Qed.
